(** * The query pipeline of the Christian art agent

    A shallow embedding of [ChristianArtAgent] (backend [src/index.ts]):
    the agent state, the request, socket and scheduled-task handlers and the
    four pipeline stages, followed by the properties of the pipeline and of
    its state machine.

    Conventions of the embedding.
    - An [async] method is a function in the monad [Eff]: it reads and
      writes the agent and either returns or throws.
    - What the outside world answers (the text-completion model, the
      browser, the key-value store, the clock) is data handed to the
      method: one record [Outside] per scheduled run.
    - Strings are sequences of bytes: the UTF-8 encoding of the text of a
      JavaScript string, in which a surrogate without its partner (which
      such a string may hold, and [JSON.parse] may yield) is written as the
      three bytes of its own code point, [ED A0..BF 80..BF]; a surrogate
      pair is the four bytes of its character. *)

From Stdlib Require Import Ascii.
From stdpp Require Import base option list strings gmap pretty.


(** ** Data model *)

(** The literal union type of [ArtAgentState.processingStage]. *)
Inductive Stage :=
  | Idle | Analyzing | Researching | Fetching | Annotating | Complete | Error.

#[global] Instance Stage_eq_dec : EqDecision Stage.
Proof. solve_decision. Defined.

(** What the code finds where it reads a string out of parsed JSON
    ([artwork.title], [data.query]): the field is missing and reads
    [undefined], it holds [null], or it holds a string.  Values of other
    types are left out. *)
Inductive Field :=
  | Undefined
  | Null
  | Text (s : string).

#[global] Instance Field_eq_dec : EqDecision Field.
Proof. solve_decision. Defined.

(** The string of a field, if it holds one: what is left of the field
    wherever [undefined] and [null] count the same ([if (v)], [v || d]). *)
Definition text (v : Field) : option string :=
  match v with
  | Text s => Some s
  | Undefined | Null => None
  end.

(** [interface ArtworkInfo].  [title] and [artist] are copied from the
    model's answer without a default, so they can be [undefined] or
    [null]; [relevanceScore] is never written and is left out. *)
Record ArtworkInfo := {
  id : string;
  title : Field;
  artist : Field;
  year : Z;
  period : string;
  location : string;
}.

(** [interface ArtworkWithImage extends ArtworkInfo]. *)
Record ArtworkWithImage := {
  info : ArtworkInfo;
  imageUrl : string;
}.

Record Annotations := {
  historicalContext : string;
  artisticStyle : string;
  biblicalNarrative : string;
  interestingDetails : list string;
  uniqueInterpretation : string;
}.

(** [interface AnnotatedArtwork extends ArtworkWithImage]. *)
Record AnnotatedArtwork := {
  withImage : ArtworkWithImage;
  annotations : Annotations;
}.

(** [interface ArtAgentState]: every field is optional.  [lastUpdated]
    holds the instant whose ISO rendering the source stores. *)
Record ArtAgentState := {
  currentQuery : Field;
  searchResults : option (list ArtworkInfo);
  selectedWorks : option (list AnnotatedArtwork);
  processingStage : option Stage;
  error : option string;
  lastUpdated : option N;
}.

(** The object without any field, [{}]. *)
Definition emptyState : ArtAgentState :=
  {| currentQuery := Undefined; searchResults := None; selectedWorks := None;
     processingStage := None; error := None; lastUpdated := None |}.

(** [this.state.processingStage || 'idle']. *)
Definition stageOrIdle (s : ArtAgentState) : Stage :=
  default Idle (processingStage s).

(** One entry of the [ART_CACHE] namespace: the value written by [put]
    (the object [{ artworks }], kept parsed) and its [expirationTtl]. *)
Record CacheEntry := {
  artworks : list AnnotatedArtwork;
  expirationTtl : N;
}.

(** The agent and what it holds on to: [this.state], the [ART_CACHE]
    binding ([None] when the worker has no such binding), the tasks handed
    to [this.schedule] and not yet run (payload [data.query], oldest
    first), the states passed to [onStateUpdate] so far (oldest first), and
    how often the clock and the UUID generator have been read.

    The class declares no [initialState]: until the first [setState] the
    SDK hands out [undefined] for [this.state] ([None]). *)
Record Agent := {
  this_state : option ArtAgentState;
  ART_CACHE : option (gmap string CacheEntry);
  schedules : list Field;
  stateUpdates : list ArtAgentState;
  clockReads : nat;
  uuidDraws : nat;
}.

(** The fields of [this.state], as the spread [...this.state] copies
    them: none when [this.state] is [undefined]. *)
Definition state (a : Agent) : ArtAgentState :=
  default emptyState (this_state a).

(** ** JavaScript idioms *)

(** A value interpolated in a template literal or handed to a function
    that takes a string: [undefined] and [null] print as such. *)
Definition tpl (v : Field) : string :=
  match v with
  | Undefined => "undefined"
  | Null => "null"
  | Text s => s
  end.

(** [v || d] on an optional string: the empty string is falsy. *)
Definition or_string (v : option string) (d : string) : string :=
  match v with
  | Some s => if decide (s = "") then d else s
  | None => d
  end.

(** [v || d] on an optional number: zero is falsy. *)
Definition or_number (v : option Z) (d : Z) : Z :=
  match v with
  | Some n => if decide (n = 0%Z) then d else n
  | None => d
  end.

(** [v || d] on an optional array: every array is truthy. *)
Definition or_array {A} (v : option (list A)) (d : list A) : list A :=
  default d v.

(** Truthiness of an optional string, as tested by [if (v)]. *)
Definition truthy (v : option string) : bool :=
  match v with
  | Some s => bool_decide (s ≠ "")
  | None => false
  end.

(** The characters [encodeURIComponent] leaves as they are. *)
Definition unreserved (c : ascii) : bool :=
  let n := nat_of_ascii c in
  (Nat.leb 65 n && Nat.leb n 90) || (Nat.leb 97 n && Nat.leb n 122)
  || (Nat.leb 48 n && Nat.leb n 57)
  || bool_decide (c ∈ ["-"; "_"; "."; "!"; "~"; "*"; "'"; "("; ")"]%char).

Definition hexDigit (n : nat) : ascii :=
  match n with
  | 0 => "0" | 1 => "1" | 2 => "2" | 3 => "3" | 4 => "4" | 5 => "5"
  | 6 => "6" | 7 => "7" | 8 => "8" | 9 => "9" | 10 => "A" | 11 => "B"
  | 12 => "C" | 13 => "D" | 14 => "E" | _ => "F"
  end%char.

(** What [encodeURIComponent] returns when it returns: the unreserved
    characters stay, every other byte of the UTF-8 encoding becomes
    [%XX]. *)
Fixpoint percentEncoded (s : string) : string :=
  match s with
  | EmptyString => EmptyString
  | String c rest =>
      if unreserved c then String c (percentEncoded rest)
      else
        let n := nat_of_ascii c in
        String "%"
          (String (hexDigit (n / 16)%nat)
             (String (hexDigit (n mod 16)%nat) (percentEncoded rest)))
  end.

(** The string holds a surrogate without its partner: the lead byte [ED]
    followed by a byte from [A0] to [BF].  Such a code point has no UTF-8
    encoding, and [encodeURIComponent] throws a [URIError] on the
    string. *)
Fixpoint loneSurrogate (s : string) : bool :=
  match s with
  | EmptyString => false
  | String c rest =>
      match rest with
      | String c1 _ =>
          bool_decide (nat_of_ascii c = 237
                       ∧ 160 ≤ nat_of_ascii c1 ≤ 191)
          || loneSurrogate rest
      | EmptyString => false
      end
  end.

(** [s.endsWith(suffix)]. *)
Definition endsWith (s suffix : string) : bool :=
  let n := String.length s in
  let m := String.length suffix in
  bool_decide (m ≤ n) && bool_decide (String.substring (n - m) m s = suffix).

(** ** Effects *)

(** What a [catch] clause receives: an [Error] with its message, or some
    other value (for which [error instanceof Error] is false). *)
Inductive Thrown :=
  | JsError (message : string)
  | OtherValue.

(** A computation over a mutable store [St] that returns ([inr]) or throws
    ([inl]); what it wrote before throwing stays written. *)
Definition ES (St A : Type) : Type := St → St * (Thrown + A).

#[global] Instance ES_ret {St} : MRet (ES St) := λ A x s, (s, inr x).
#[global] Instance ES_bind {St} : MBind (ES St) := λ A B f m s,
  match m s with
  | (s', inr x) => f x s'
  | (s', inl e) => (s', inl e)
  end.

(** [throw e]. *)
Definition throw {St A} (e : Thrown) : ES St A := λ s, (s, inl e).

(** [try { body } catch (error) { handler(error) }]. *)
Definition try_catch {St A} (body : ES St A) (handler : Thrown → ES St A)
  : ES St A :=
  λ s, match body s with
       | (s', inl e) => handler e s'
       | r => r
       end.

(** [try { body } finally { cleanup }]: an exception of [cleanup] replaces
    the outcome of [body]. *)
Definition try_finally {St A} (body : ES St A) (cleanup : ES St unit)
  : ES St A :=
  λ s, match body s with
       | (s', r) =>
           match cleanup s' with
           | (s'', inr _) => (s'', r)
           | (s'', inl e) => (s'', inl e)
           end
       end.

(** [encodeURIComponent(s)]. *)
Definition encodeURIComponent {St} (s : string) : ES St string :=
  if loneSurrogate s then throw (JsError "URI malformed")
  else mret (percentEncoded s).

(** An awaited call of the outside world that resolves or rejects. *)
Definition await {St} (rejection : option Thrown) : ES St unit :=
  match rejection with
  | None => mret ()
  | Some e => throw e
  end.

(** [for (const x of xs) { body }], with the position of [x] at hand. *)
Fixpoint for_of {St A} (body : nat → A → ES St unit) (xs : list A)
    (index : nat) : ES St unit :=
  match xs with
  | [] => mret ()
  | x :: rest => body index x;; for_of body rest (S index)
  end.

(** [xs.map((x, index) => f(x, index))] with a callback that may throw. *)
Fixpoint map_index {St A B} (f : A → nat → ES St B) (xs : list A)
    (index : nat) : ES St (list B) :=
  match xs with
  | [] => mret []
  | x :: rest =>
      y ← f x index; ys ← map_index f rest (S index); mret (y :: ys)
  end.

(** [arr.push(x)] on the array a loop fills. *)
Definition push {X} (x : X) : ES (list X) unit := λ arr, (arr ++ [x], inr ()).

(** The body of an asynchronous method of the agent. *)
Abbreviation Eff := (ES Agent).

(** [const arr = []; body; return arr]: [body] fills a fresh local array
    and leaves the agent alone. *)
Definition filling {X} (body : ES (list X) unit) : Eff (list X) := λ a,
  match body [] with
  | (arr, inr _) => (a, inr arr)
  | (_, inl e) => (a, inl e)
  end.

(** [...this.state]: the spread of [undefined] copies nothing and does
    not throw. *)
Definition getState : Eff ArtAgentState := λ a, (a, inr (state a)).

(** [this.state] where properties of it are read, the first of them
    [this.state.processingStage]: reading a property of [undefined]
    throws a [TypeError]. *)
Definition readState : Eff ArtAgentState := λ a,
  match this_state a with
  | Some s => (a, inr s)
  | None =>
      (a, inl (JsError
         "Cannot read properties of undefined (reading 'processingStage')"))
  end.

(** [this.setState(s)] of the agents SDK: [s] replaces the whole state
    (the pipeline spreads [...this.state] wherever it means to keep the
    other fields) and is handed to [onStateUpdate]. *)
Definition setState (s : ArtAgentState) : Eff unit := λ a,
  ({| this_state := Some s; ART_CACHE := ART_CACHE a;
      schedules := schedules a;
      stateUpdates := stateUpdates a ++ [s];
      clockReads := clockReads a; uuidDraws := uuidDraws a |}, inr ()).

(** [this.schedule(0, 'processArtQuery', { query })]. *)
Definition schedule (query : Field) : Eff unit := λ a,
  ({| this_state := this_state a; ART_CACHE := ART_CACHE a;
      schedules := schedules a ++ [query];
      stateUpdates := stateUpdates a;
      clockReads := clockReads a; uuidDraws := uuidDraws a |}, inr ()).

(** ** The outside world *)

(** What becomes of one text completion: the request, the pattern match on
    the answer and [JSON.parse] of the match. *)
Inductive Completion (A : Type) :=
  | Rejected      (* ai.run rejects, or the answer carries no text *)
  | NoJson        (* the pattern does not match the answer *)
  | BadJson       (* JSON.parse throws on the match *)
  | Parsed (v : A).
Arguments Rejected {A}.
Arguments NoJson {A}.
Arguments BadJson {A}.
Arguments Parsed {A} v.

(** One element of the array in the research answer, read through
    [artwork.title], ..., [artwork.location].  The year, the period and
    the location are only read under [||], where a missing field and
    [null] count the same ([None]). *)
Record ArtworkJson := {
  json_title : Field;
  json_artist : Field;
  json_year : option Z;
  json_period : option string;
  json_location : option string;
}.

(** The parsed research answer.  The pattern [/\[\s*\{.*\}\s*\]/s]
    only matches text that opens with a bracket, white space and a brace,
    so when [JSON.parse] accepts the match the value is an array whose
    first element is an object; the elements after it are objects or
    [null] ([None]). *)
Record ArtworkArray := {
  first : ArtworkJson;
  others : list (option ArtworkJson);
}.

Definition elements (arr : ArtworkArray) : list (option ArtworkJson) :=
  Some (first arr) :: others arr.

(** The object in an annotation answer, read through its five keys, each
    under [||] ([None]: missing or [null]). *)
Record AnnotationsJson := {
  json_historicalContext : option string;
  json_artisticStyle : option string;
  json_biblicalNarrative : option string;
  json_interestingDetails : option (list string);
  json_uniqueInterpretation : option string;
}.

(** One pass of the image loop over the browser.  Either a call before the
    push rejects ([newPage], [goto], [waitForSelector] or [evaluate], the
    last also when [imgElements[1]] is missing), or [evaluate] resolves
    with a source or [null] and [page.close()] then resolves or rejects. *)
Inductive PageRun :=
  | PageRejects
  | PageEvaluates (src : option string) (closeRejects : bool).

(** Everything the outside world answers during one scheduled run. *)
Record Outside := {
  ai_research : Field → Completion ArtworkArray;
  browser_launch : option Thrown;
  browser_page : nat → string → PageRun;
  browser_close : option Thrown;
  ai_annotate : nat → ArtworkWithImage → Field
                → Completion AnnotationsJson;
  cache_put : option Thrown;
}.

(** ** Requests, responses and socket messages *)

Inductive Method := GET | POST | OtherMethod.

#[global] Instance Method_eq_dec : EqDecision Method.
Proof. solve_decision. Defined.

(** An HTTP request as [onRequest] looks at it: the method, the path of
    the URL, and what [request.json()] yields: it rejects ([None]) or
    gives an object whose [query] field is a string, [null] or missing. *)
Record Request := {
  method : Method;
  pathname : string;
  json : option Field;
}.

(** The bodies [Response.json] is called with. *)
Inductive Body :=
  | ErrorBody (error : string)
  | AcceptedBody (message : string) (queryId : string) (cached : bool)
  | StatusBody (state : Stage) (lastUpdated : option N)
      (query : Field) (error : option string)
  | NotReadyBody (message : string) (state : Stage) (error : option string)
  | ResultsBody (query : Field)
      (artworks : option (list AnnotatedArtwork))
  | InfoBody (message : string) (endpoints : list string).

Record Response := {
  status : nat;
  body : Body;
}.

(** [Response.json(b)]: status 200 unless one is given. *)
Definition ok (b : Body) : Response := {| status := 200; body := b |}.

(** What [JSON.parse(message)] makes of a socket message: it throws or
    gives a value without properties, or gives an object of type ['query']
    (whose [query] is a string, [null] or missing), or one of another
    type. *)
Inductive Inbound :=
  | Malformed
  | QueryMessage (query : Field)
  | OtherMessage.

(** The envelopes sent to a connection, [{ type, data }]. *)
Inductive Envelope :=
  | StateEnvelope (processingStage : Stage) (query : Field)
      (error : option string)
  | ResultsEnvelope (query : Field)
      (artworks : list AnnotatedArtwork)
  | ErrorEnvelope (message : string) (error : string).

(** ** The agent *)

Section ChristianArtAgent.

(** The clock and the UUID generator of the runtime: what their [n]-th
    reading returns. *)
Context (clock : nat → N) (randomUUID : nat → string).

(** [Date.now()] and [new Date()]. *)
Definition now : Eff N := λ a,
  ({| this_state := this_state a; ART_CACHE := ART_CACHE a;
      schedules := schedules a;
      stateUpdates := stateUpdates a;
      clockReads := S (clockReads a); uuidDraws := uuidDraws a |},
   inr (clock (clockReads a))).

(** [crypto.randomUUID()]. *)
Definition newUUID : Eff string := λ a,
  ({| this_state := this_state a; ART_CACHE := ART_CACHE a;
      schedules := schedules a;
      stateUpdates := stateUpdates a;
      clockReads := clockReads a; uuidDraws := S (uuidDraws a) |},
   inr (randomUUID (uuidDraws a))).

(** [{ ...this.state, processingStage: stage, lastUpdated: t }]. *)
Definition withStage (s : ArtAgentState) (stage : Stage) (t : N)
  : ArtAgentState :=
  {| currentQuery := currentQuery s; searchResults := searchResults s;
     selectedWorks := selectedWorks s; processingStage := Some stage;
     error := error s; lastUpdated := Some t |}.

(** [{ ...this.state, selectedWorks: works, processingStage: 'complete',
    lastUpdated: t }]. *)
Definition withWorks (s : ArtAgentState) (works : list AnnotatedArtwork)
    (t : N) : ArtAgentState :=
  {| currentQuery := currentQuery s; searchResults := searchResults s;
     selectedWorks := Some works; processingStage := Some Complete;
     error := error s; lastUpdated := Some t |}.

(** [{ ...this.state, processingStage: 'error', error: message,
    lastUpdated: t }]. *)
Definition withError (s : ArtAgentState) (message : string) (t : N)
  : ArtAgentState :=
  {| currentQuery := currentQuery s; searchResults := searchResults s;
     selectedWorks := selectedWorks s; processingStage := Some Error;
     error := Some message; lastUpdated := Some t |}.

(** [{ currentQuery: query, processingStage: 'analyzing', lastUpdated: t }],
    the object both submission handlers pass to [setState]. *)
Definition submitted (query : Field) (t : N) : ArtAgentState :=
  {| currentQuery := query; searchResults := None; selectedWorks := None;
     processingStage := Some Analyzing; error := None;
     lastUpdated := Some t |}.

(** [{ currentQuery: query, selectedWorks: works, processingStage:
    'complete', lastUpdated: t }], the object set on a cache hit. *)
Definition cached (query : Field) (works : list AnnotatedArtwork)
    (t : N) : ArtAgentState :=
  {| currentQuery := query; searchResults := None;
     selectedWorks := Some works; processingStage := Some Complete;
     error := None; lastUpdated := Some t |}.

(** [`artwork-${Date.now()}-${index}`]. *)
Definition artworkId (t : N) (index : nat) : string :=
  "artwork-" +:+ pretty t +:+ "-" +:+ pretty index.

(** The callback of [artworks.map]: it reads the clock for the id, then
    the fields of the element, which throws on [null]. *)
Definition addId (artwork : option ArtworkJson) (index : nat)
  : Eff ArtworkInfo :=
  t ← now;
  match artwork with
  | None => throw (JsError "Cannot read properties of null")
  | Some artwork =>
      mret {| id := artworkId t index;
              title := json_title artwork;
              artist := json_artist artwork;
              year := or_number (json_year artwork) 0;
              period := or_string (json_period artwork) "Unknown";
              location := or_string (json_location artwork) "Unknown" |}
  end.

(** [researchArtworks]. *)
Definition researchArtworks (out : Outside) (biblicalNarrative : Field)
  : Eff (list ArtworkInfo) :=
  s ← getState; t ← now;
  setState (withStage s Researching t);;
  try_catch
    (match ai_research out biblicalNarrative with
     | Rejected => throw OtherValue
     | NoJson =>
         throw (JsError
           "Failed to extract JSON list of artworks from AI response")
     | BadJson => throw (JsError "Unexpected token in JSON")
     | Parsed artworks => map_index addId (elements artworks) 0
     end)
    (λ _, throw (JsError
       "Failed to research artworks for the biblical narrative")).

(** [`${artwork.artist} ${artwork.title} painting artwork`]. *)
Definition searchQuery (artwork : ArtworkInfo) : string :=
  tpl (artist artwork) +:+ " " +:+ tpl (title artwork)
  +:+ " painting artwork".

(** The address [page.goto] is called with. *)
Definition searchUrl {St} (artwork : ArtworkInfo) : ES St string :=
  q ← encodeURIComponent (searchQuery artwork);
  mret ("https://www.google.com/search?q=" +:+ q +:+ "&tbm=isch").

(** [{ ...artwork, imageUrl:
    `https://placekitten.com/600/400?text=${encodeURIComponent(
    artwork.title)}` }], the placeholder both fallbacks of the image loop
    build. *)
Definition withPlaceholder {St} (artwork : ArtworkInfo)
  : ES St ArtworkWithImage :=
  t ← encodeURIComponent (tpl (title artwork));
  mret {| info := artwork;
          imageUrl := "https://placekitten.com/600/400?text=" +:+ t |}.

(** One pass of the loop of [fetchArtworkImages].  The address is made
    after [newPage] and before [goto]; a rejection of [newPage] and a
    throw of [encodeURIComponent] reach the same [catch] block, whose own
    call of [encodeURIComponent] is not inside any [try] of the loop. *)
Definition imagePass (out : Outside) (index : nat) (artwork : ArtworkInfo)
  : ES (list ArtworkWithImage) unit :=
  try_catch
    (url ← searchUrl artwork;
     match browser_page out index url with
     | PageRejects => throw OtherValue
     | PageEvaluates src closeRejects =>
         match src with
         | Some imageUrl =>
             if truthy src
             then push {| info := artwork; imageUrl := imageUrl |}
             else w ← withPlaceholder artwork; push w
         | None => w ← withPlaceholder artwork; push w
         end;;
         if closeRejects then throw OtherValue else mret ()
     end)
    (λ _, w ← withPlaceholder artwork; push w).

(** [fetchArtworkImages]. *)
Definition fetchArtworkImages (out : Outside) (artworks : list ArtworkInfo)
  : Eff (list ArtworkWithImage) :=
  s ← getState; t ← now;
  setState (withStage s Fetching t);;
  await (browser_launch out);;
  filling
    (try_finally
       (for_of (imagePass out) artworks 0)
       (await (browser_close out))).

(** The annotations pushed when the answer parsed: a default per key. *)
Definition annotationsOf (annotations : AnnotationsJson) : Annotations :=
  {| historicalContext :=
       or_string (json_historicalContext annotations)
         "Historical context information unavailable";
     artisticStyle :=
       or_string (json_artisticStyle annotations)
         "Artistic style information unavailable";
     biblicalNarrative :=
       or_string (json_biblicalNarrative annotations)
         "Biblical narrative interpretation unavailable";
     interestingDetails :=
       or_array (json_interestingDetails annotations)
         ["Detail information unavailable"];
     uniqueInterpretation :=
       or_string (json_uniqueInterpretation annotations)
         "Unique interpretation information unavailable" |}.

(** The annotations pushed by the [catch] block. *)
Definition notGenerated : string :=
  "Information could not be generated at this time.".

Definition defaultAnnotations : Annotations :=
  {| historicalContext := notGenerated;
     artisticStyle := notGenerated;
     biblicalNarrative := notGenerated;
     interestingDetails := [notGenerated];
     uniqueInterpretation := notGenerated |}.

(** One pass of the loop of [annotateArtworks]. *)
Definition annotatePass (out : Outside) (narrative : Field)
    (index : nat) (artwork : ArtworkWithImage)
  : ES (list AnnotatedArtwork) unit :=
  try_catch
    (match ai_annotate out index artwork narrative with
     | Rejected => throw OtherValue
     | NoJson =>
         throw (JsError ("Failed to extract JSON annotations for "
                         +:+ tpl (title (info artwork))))
     | BadJson => throw (JsError "Unexpected token in JSON")
     | Parsed annotations =>
         push {| withImage := artwork;
                 annotations := annotationsOf annotations |}
     end)
    (λ _, push {| withImage := artwork;
                  annotations := defaultAnnotations |}).

(** [annotateArtworks]. *)
Definition annotateArtworks (out : Outside)
    (artworks : list ArtworkWithImage) (narrative : Field)
  : Eff (list AnnotatedArtwork) :=
  s ← getState; t ← now;
  setState (withStage s Annotating t);;
  filling (for_of (annotatePass out narrative) artworks 0).

(** The key of a query in [ART_CACHE]. *)
Definition cacheKey (query : Field) : string :=
  "query:" +:+ tpl query.

(** [this.env.ART_CACHE], to be tested with [if]. *)
Definition cacheBinding : Eff (option (gmap string CacheEntry)) :=
  λ a, (a, inr (ART_CACHE a)).

(** The store takes an entry. *)
Definition kvStore (key : string) (entry : CacheEntry) : Eff unit := λ a,
  ({| this_state := this_state a;
      ART_CACHE := <[key := entry]> <$> ART_CACHE a;
      schedules := schedules a; stateUpdates := stateUpdates a;
      clockReads := clockReads a; uuidDraws := uuidDraws a |}, inr ()).

(** [await this.env.ART_CACHE.put(key, JSON.stringify({ artworks }),
    { expirationTtl: 60 * 60 * 24 * 30 })]. *)
Definition cachePut (out : Outside) (key : string)
    (works : list AnnotatedArtwork) : Eff unit :=
  await (cache_put out);;
  kvStore key {| artworks := works; expirationTtl := 60 * 60 * 24 * 30 |}.

(** [error instanceof Error ? error.message : 'Unknown error occurred']. *)
Definition messageOf (e : Thrown) : string :=
  match e with
  | JsError message => message
  | OtherValue => "Unknown error occurred"
  end.

(** [processArtQuery], the callback of the scheduled task. *)
Definition processArtQuery (out : Outside) (query : Field)
  : Eff unit :=
  try_catch
    (artworksList ← researchArtworks out query;
     artworksWithImages ← fetchArtworkImages out artworksList;
     annotatedArtworks ← annotateArtworks out artworksWithImages query;
     s ← getState; t ← now;
     setState (withWorks s annotatedArtworks t);;
     binding ← cacheBinding;
     if bool_decide (is_Some binding ∧ 0 < length annotatedArtworks)
     then try_catch
            (cachePut out (cacheKey query) annotatedArtworks)
            (λ _, mret ())
     else mret ())
    (λ e,
       s ← getState; t ← now;
       setState (withError s (messageOf e) t)).

(** The cache lookup of [onRequest]: [Some response] when the handler
    returns from inside the inner [try], [None] when it goes on. *)
Definition fromCache (query : Field) (cache_get : option Thrown)
  : Eff (option Response) :=
  binding ← cacheBinding;
  match binding with
  | Some kv =>
      try_catch
        (await cache_get;;
         match kv !! cacheKey query with
         | Some parsedResult =>
             t ← now;
             setState (cached query (artworks parsedResult) t);;
             queryId ← newUUID;
             mret (Some (ok (AcceptedBody
               "Query results retrieved from cache" queryId true)))
         | None => mret None
         end)
        (λ _, mret None)
  | None => mret None
  end.

(** [onRequest], the branch of [POST .../query]. *)
Definition submit (request : Request) (cache_get : option Thrown)
  : Eff Response :=
  try_catch
    (match json request with
     | None => throw OtherValue
     | Some query =>
         if negb (truthy (text query))
         then mret {| status := 400; body := ErrorBody "No query provided" |}
         else
           hit ← fromCache query cache_get;
           match hit with
           | Some response => mret response
           | None =>
               t ← now;
               setState (submitted query t);;
               schedule query;;
               queryId ← newUUID;
               mret (ok (AcceptedBody
                 "Query received and processing started" queryId false))
           end
     end)
    (λ _, mret {| status := 500;
                  body := ErrorBody "Failed to process query" |}).

(** [onRequest], the branch of [.../status]. *)
Definition statusOf : Eff Response :=
  s ← readState;
  mret (ok (StatusBody (stageOrIdle s) (lastUpdated s) (currentQuery s)
              (error s))).

(** [onRequest], the branch of [.../results]. *)
Definition results : Eff Response :=
  s ← readState;
  if bool_decide (processingStage s ≠ Some Complete)
  then mret (ok (NotReadyBody "Results not ready yet" (stageOrIdle s)
                   (error s)))
  else mret (ok (ResultsBody (currentQuery s) (selectedWorks s))).

(** [onRequest].  [cache_get] tells whether [ART_CACHE.get] rejects. *)
Definition onRequest (request : Request) (cache_get : option Thrown)
  : Eff Response :=
  if endsWith (pathname request) "/query"
     && bool_decide (method request = POST)
  then submit request cache_get
  else if endsWith (pathname request) "/status" then statusOf
  else if endsWith (pathname request) "/results" then results
  else mret (ok (InfoBody "Christian Art History AI Agent"
                   ["/query"; "/status"; "/results"])).

(** [onConnect]: the envelopes sent to the new connection, in order.  The
    state is read while the first envelope is built: when that throws,
    nothing has been sent.  The connection has just been accepted: its
    [send] is taken to return. *)
Definition onConnect : Eff (list Envelope) :=
  s ← readState;
  let initial := StateEnvelope (stageOrIdle s) (currentQuery s) (error s) in
  match processingStage s, selectedWorks s with
  | Some Complete, Some works =>
      mret [initial; ResultsEnvelope (currentQuery s) works]
  | _, _ => mret [initial]
  end.

(** [onMessage]: the envelopes sent back to the connection, in order.
    The connection has just delivered the message: its [send] is taken to
    return, so that the task is scheduled whenever the state is set. *)
Definition onMessage (message : Inbound) : Eff (list Envelope) :=
  try_catch
    (match message with
     | Malformed => throw (JsError "Unexpected token in JSON")
     | QueryMessage query =>
         t ← now;
         setState (submitted query t);;
         schedule query;;
         mret [StateEnvelope Analyzing query None]
     | OtherMessage => mret []
     end)
    (λ e, mret [ErrorEnvelope "Failed to process message"
                  match e with
                  | JsError message => message
                  | OtherValue => "Unknown error"
                  end]).

(** ** Sessions *)

(** What happens to an agent: an HTTP request, a socket that connects, a
    socket message, the alarm that runs the oldest scheduled task, and an
    entry of the store reaching the end of its time to live.  Handlers
    and runs are taken whole, one after the other: a session has no event
    in the middle of a run. *)
Inductive Event :=
  | Http (request : Request) (cache_get : option Thrown)
  | Connects
  | Socket (message : Inbound)
  | Alarm (out : Outside)
  | Expires (key : string).

(** The alarm takes the oldest task off the schedule and runs it. *)
Definition alarm (out : Outside) (a : Agent) : Agent :=
  match schedules a with
  | [] => a
  | query :: rest =>
      (processArtQuery out query
         {| this_state := this_state a; ART_CACHE := ART_CACHE a;
            schedules := rest;
            stateUpdates := stateUpdates a;
            clockReads := clockReads a; uuidDraws := uuidDraws a |}).1
  end.

Definition expire (key : string) (a : Agent) : Agent :=
  {| this_state := this_state a; ART_CACHE := delete key <$> ART_CACHE a;
     schedules := schedules a; stateUpdates := stateUpdates a;
     clockReads := clockReads a; uuidDraws := uuidDraws a |}.

Definition handle (a : Agent) (e : Event) : Agent :=
  match e with
  | Http request cache_get => (onRequest request cache_get a).1
  | Connects => (onConnect a).1
  | Socket message => (onMessage message a).1
  | Alarm out => alarm out a
  | Expires key => expire key a
  end.

(** A session: the events of one agent, handled one after the other. *)
Definition session (a : Agent) (events : list Event) : Agent :=
  foldl handle a events.

End ChristianArtAgent.

(** A fresh agent: no state, nothing scheduled, over a given store. *)
Definition fresh (cache : option (gmap string CacheEntry)) : Agent :=
  {| this_state := None; ART_CACHE := cache; schedules := [];
     stateUpdates := []; clockReads := 0; uuidDraws := 0 |}.


(** ** State updates on the push channel *)

(** The envelopes [onStateUpdate] sends: the state envelope carries the
    stage as it is in the state (no ['idle'] default), the time of the
    update and the error, and no query. *)
Inductive Notification :=
  | StateNotification (processingStage : option Stage)
      (lastUpdated : option N) (error : option string)
  | ResultsNotification (query : Field)
      (artworks : list AnnotatedArtwork).

(** [connection.send(m)] on one of the sockets of
    [this.ctx.getWebSockets()]: the socket takes the message, or the call
    throws; [throws connection m] tells which. *)
Definition send {C} (throws : C → Notification → option Thrown)
    (connection : C) (m : Notification) : ES (list (C * Notification)) unit :=
  match throws connection m with
  | Some e => throw e
  | None => push (connection, m)
  end.

(** [onStateUpdate(state, source)] over the sockets
    [this.ctx.getWebSockets()] returns: what has been sent, to whom, in
    order, and whether the handler returns or throws.  The loop has no
    [try]: a [send] that throws ends it. *)
Definition onStateUpdate {C} (throws : C → Notification → option Thrown)
    (connections : list C) (s : ArtAgentState)
  : list (C * Notification) * (Thrown + unit) :=
  for_of (λ _ connection,
    send throws connection
      (StateNotification (processingStage s) (lastUpdated s) (error s));;
    match processingStage s, selectedWorks s with
    | Some Complete, Some works =>
        send throws connection
          (ResultsNotification (currentQuery s) works)
    | _, _ => mret ()
    end)
    connections 0 [].

(** ** The page *)

(** [String.prototype.trim] leaves nothing: the text is made of white
    space and line terminators only (their UTF-8 encodings). *)
Fixpoint blank (s : string) : bool :=
  match s with
  | EmptyString => true
  | String c rest =>
      let n := nat_of_ascii c in
      if bool_decide (n ∈ [9; 10; 11; 12; 13; 32]) then blank rest
      else
        match rest with
        | String c1 rest1 =>
            let n1 := nat_of_ascii c1 in
            if bool_decide (n = 194 ∧ n1 = 160) then blank rest1
            else
              match rest1 with
              | String c2 rest2 =>
                  let n2 := nat_of_ascii c2 in
                  if bool_decide
                       (n = 225 ∧ n1 = 154 ∧ n2 = 128
                        ∨ n = 226 ∧ n1 = 128
                          ∧ (128 ≤ n2 ≤ 138 ∨ n2 = 168 ∨ n2 = 169
                             ∨ n2 = 175)
                        ∨ n = 226 ∧ n1 = 129 ∧ n2 = 159
                        ∨ n = 227 ∧ n1 = 128 ∧ n2 = 128
                        ∨ n = 239 ∧ n1 = 187 ∧ n2 = 191)
                  then blank rest2
                  else false
              | EmptyString => false
              end
        | EmptyString => false
        end
  end.

(** What a response or a message holds under a key, read the way the page
    reads it: a key that is not there reads [undefined]. *)
Definition body_state (b : Body) : option Stage :=
  match b with
  | StatusBody state _ _ _ | NotReadyBody _ state _ => Some state
  | _ => None
  end.

Definition body_error (b : Body) : option string :=
  match b with
  | ErrorBody error => Some error
  | StatusBody _ _ _ error | NotReadyBody _ _ error => error
  | _ => None
  end.

Definition body_artworks (b : Body) : option (list AnnotatedArtwork) :=
  match b with
  | ResultsBody _ artworks => artworks
  | _ => None
  end.

(** [response.ok]. *)
Definition response_ok (r : Response) : bool :=
  bool_decide (200 ≤ status r ≤ 299).

(** The error the page throws for a response that is not [ok]. *)
Definition httpError (r : Response) : Thrown :=
  JsError ("HTTP error! status: " +:+ pretty (status r)).

(** A message of the agent as the page parses it: [{ type, data }], with
    the keys of [data] the page reads. *)
Inductive AgentMessage :=
  | StateMessage (processingStage : option Stage) (error : option string)
  | ResultsMessage (artworks : list AnnotatedArtwork)
  | ErrorMessage (message : string)
  | Unreadable.

Definition ofEnvelope (e : Envelope) : AgentMessage :=
  match e with
  | StateEnvelope processingStage _ error =>
      StateMessage (Some processingStage) error
  | ResultsEnvelope _ artworks => ResultsMessage artworks
  | ErrorEnvelope message _ => ErrorMessage message
  end.

Definition ofNotification (n : Notification) : AgentMessage :=
  match n with
  | StateNotification processingStage _ error =>
      StateMessage processingStage error
  | ResultsNotification _ artworks => ResultsMessage artworks
  end.

(** What the page sends to the agent. *)
Inductive Outgoing :=
  | OverSocket (message : Inbound)
  | OverHttp (request : Request).

Module App.

(** The state cells of the component [App]: [results] and [error] start
    as [null], [status] as ['idle']; [status] holds what the agent sent as
    its stage.  [socket] tells whether the cell holds a socket. *)
Record State := {
  query : string;
  results : option (list AnnotatedArtwork);
  status : option Stage;
  selectedArtwork : option AnnotatedArtwork;
  isLoading : bool;
  error : option string;
  socket : bool;
}.

Definition initial : State :=
  {| query := ""; results := None; status := Some Idle;
     selectedArtwork := None; isLoading := false; error := None;
     socket := false |}.

Definition setStatus (v : option Stage) (s : State) : State :=
  {| query := query s; results := results s; status := v;
     selectedArtwork := selectedArtwork s; isLoading := isLoading s;
     error := error s; socket := socket s |}.

Definition setError (v : option string) (s : State) : State :=
  {| query := query s; results := results s; status := status s;
     selectedArtwork := selectedArtwork s; isLoading := isLoading s;
     error := v; socket := socket s |}.

Definition setResults (v : option (list AnnotatedArtwork)) (s : State)
  : State :=
  {| query := query s; results := v; status := status s;
     selectedArtwork := selectedArtwork s; isLoading := isLoading s;
     error := error s; socket := socket s |}.

Definition setIsLoading (v : bool) (s : State) : State :=
  {| query := query s; results := results s; status := status s;
     selectedArtwork := selectedArtwork s; isLoading := v;
     error := error s; socket := socket s |}.

(** The [catch] blocks of [sendQueryViaHttp] and [checkStatus]. *)
Definition failed (e : Thrown) (s : State) : State :=
  setError (Some match e with
                 | JsError message => message
                 | OtherValue => "Unknown error occurred"
                 end)
    (setStatus (Some Error) (setIsLoading false s)).

(** [ws.onmessage]. *)
Definition onmessage (m : AgentMessage) (s : State) : State :=
  match m with
  | StateMessage processingStage error =>
      let s := setStatus processingStage s in
      if truthy error then setError error s else s
  | ResultsMessage artworks =>
      setIsLoading false (setResults (Some artworks) s)
  | ErrorMessage message =>
      setStatus (Some Error)
        (setIsLoading false
           (setError (Some (or_string (Some message) "An error occurred"))
              s))
  | Unreadable => s
  end.

(** [handleSearch]: the new state and what is sent; [opened] tells
    whether the socket in the cell is in state [OPEN]. *)
Definition handleSearch (opened : bool) (s : State)
  : State * option Outgoing :=
  if blank (query s) then (s, None)
  else
    (setError None
       (setResults None (setStatus (Some Analyzing) (setIsLoading true s))),
     Some (if socket s && opened
           then OverSocket (QueryMessage (Text (query s)))
           else OverHttp
                  {| method := POST;
                     pathname := "/agents/christian-art-agent-backend/query";
                     json := Some (Text (query s)) |})).


(** One round of [checkStatus] in [pollForResults], given what the two
    requests settle with (the second is only made for state
    ['complete']): the new state, and whether another round is set up. *)
Definition checkStatus (statusResponse resultsResponse : Thrown + Response)
    (s : State) : State * bool :=
  match statusResponse with
  | inl e => (failed e s, false)
  | inr r =>
      if negb (response_ok r) then (failed (httpError r) s, false)
      else
        let s := setStatus (body_state (body r)) s in
        let s := if truthy (body_error (body r))
                 then setError (body_error (body r)) s else s in
        if bool_decide (body_state (body r) = Some Complete)
        then
          match resultsResponse with
          | inl e => (failed e s, false)
          | inr r' =>
              if negb (response_ok r') then (failed (httpError r') s, false)
              else
                (setIsLoading false
                   (setResults (body_artworks (body r')) s), false)
          end
        else (s, true)
  end.

(** What the page shows. *)
Definition showsProgress (s : State) : bool :=
  bool_decide (status s ≠ Some Idle ∧ status s ≠ Some Complete
               ∧ status s ≠ Some Error).

Definition showsError (s : State) : bool := truthy (error s).

Definition showsGrid (s : State) : bool :=
  match results s with
  | Some (_ :: _) => true
  | _ => false
  end.

Definition showsNoArtworks (s : State) : bool :=
  negb (showsGrid s) && bool_decide (status s = Some Complete).

End App.
(** * Reading the runs

    Closed forms of what the stages compute, and the vocabulary of the
    statements below. *)

(** A string without the dash that separates the parts of an id. *)
Fixpoint dashless (s : string) : Prop :=
  match s with
  | EmptyString => True
  | String c rest => c ≠ "-"%char ∧ dashless rest
  end.

(** The agent after [n] more readings of the clock. *)
Definition ticked (n : nat) (a : Agent) : Agent :=
  {| this_state := this_state a; ART_CACHE := ART_CACHE a;
     schedules := schedules a; stateUpdates := stateUpdates a;
     clockReads := n + clockReads a; uuidDraws := uuidDraws a |}.

(** The agent after [setState s]. *)
Definition wrote (s : ArtAgentState) (a : Agent) : Agent :=
  {| this_state := Some s; ART_CACHE := ART_CACHE a;
     schedules := schedules a;
     stateUpdates := stateUpdates a ++ [s];
     clockReads := clockReads a; uuidDraws := uuidDraws a |}.

(** The candidate [addId] builds from an element read at time [t]. *)
Definition candidate (t : N) (index : nat) (artwork : ArtworkJson)
  : ArtworkInfo :=
  {| id := artworkId t index;
     title := json_title artwork;
     artist := json_artist artwork;
     year := or_number (json_year artwork) 0;
     period := or_string (json_period artwork) "Unknown";
     location := or_string (json_location artwork) "Unknown" |}.

(** The candidates [map] builds from the elements [l], the first of them
    at position [index] and at the [reads]-th reading of the clock; [None]
    when an element is [null]. *)
Fixpoint identified (clock : nat → N) (l : list (option ArtworkJson))
    (index reads : nat)
  : option (list ArtworkInfo) :=
  match l with
  | [] => Some []
  | None :: _ => None
  | Some artwork :: rest =>
      match identified clock rest (S index) (S reads) with
      | Some infos => Some (candidate (clock reads) index artwork :: infos)
      | None => None
      end
  end.

(** What [researchArtworks] returns, read off the model's answer: the
    candidates, or [None] when it throws. *)
Definition researched (clock : nat → N) (out : Outside)
    (query : Field) (reads : nat)
  : option (list ArtworkInfo) :=
  match ai_research out query with
  | Parsed arr => identified clock (elements arr) 0 reads
  | _ => None
  end.

Definition researchFailure : Thrown :=
  JsError "Failed to research artworks for the biblical narrative".

(** What [encodeURIComponent] throws. *)
Definition uriError : Thrown := JsError "URI malformed".

(** The address of the search for an artwork whose search text can be
    encoded. *)
Definition searchAddress (artwork : ArtworkInfo) : string :=
  "https://www.google.com/search?q="
  +:+ percentEncoded (searchQuery artwork) +:+ "&tbm=isch".

(** The entry the fallbacks of the image loop push for an artwork whose
    title can be encoded. *)
Definition placeholder (artwork : ArtworkInfo) : ArtworkWithImage :=
  {| info := artwork;
     imageUrl := "https://placekitten.com/600/400?text="
                 +:+ percentEncoded (tpl (title artwork)) |}.

(** The title of the artwork cannot be encoded: the [catch] block of its
    pass throws. *)
Definition malformedTitle (artwork : ArtworkInfo) : bool :=
  loneSurrogate (tpl (title artwork)).

(** How the [try] block of the pass for the artwork at position [index]
    goes: a search text that cannot be encoded ends it before the push,
    like a call that rejects. *)
Definition pageRun (out : Outside) (index : nat) (artwork : ArtworkInfo)
  : PageRun :=
  if loneSurrogate (searchQuery artwork) then PageRejects
  else browser_page out index (searchAddress artwork).

(** What one pass of the image loop pushes for an artwork whose title can
    be encoded. *)
Definition pushed (out : Outside) (index : nat) (artwork : ArtworkInfo)
  : list ArtworkWithImage :=
  match pageRun out index artwork with
  | PageRejects => [placeholder artwork]
  | PageEvaluates src closeRejects =>
      match src with
      | Some imageUrl =>
          if truthy src then {| info := artwork; imageUrl := imageUrl |}
          else placeholder artwork
      | None => placeholder artwork
      end :: (if closeRejects then [placeholder artwork] else [])
  end.

(** What the image loop pushes for the artworks from position [index],
    the title of each of which can be encoded. *)
Fixpoint resolved (out : Outside) (artworks : list ArtworkInfo)
    (index : nat) : list ArtworkWithImage :=
  match artworks with
  | [] => []
  | artwork :: rest => pushed out index artwork ++ resolved out rest (S index)
  end.

(** The first rejection of the browser itself, at launch or at close. *)
Definition browserFailure (out : Outside) : option Thrown :=
  match browser_launch out with
  | Some e => Some e
  | None => browser_close out
  end.

(** What [fetchArtworkImages] throws, if it throws: the rejection of the
    launch; or else that of [browser.close()], which the [finally] block
    puts in the place of whatever the loop threw; or else the [URIError]
    of the first title that cannot be encoded. *)
Definition fetchFailure (out : Outside) (artworks : list ArtworkInfo)
  : option Thrown :=
  match browserFailure out with
  | Some e => Some e
  | None => if existsb malformedTitle artworks then Some uriError else None
  end.

(** The annotations one pass of the annotation loop attaches. *)
Definition annotation (out : Outside) (narrative : Field)
    (index : nat) (artwork : ArtworkWithImage) : Annotations :=
  match ai_annotate out index artwork narrative with
  | Parsed annotations => annotationsOf annotations
  | _ => defaultAnnotations
  end.

(** What the annotation loop pushes for the artworks from [index]. *)
Fixpoint annotated (out : Outside) (narrative : Field)
    (artworks : list ArtworkWithImage) (index : nat)
  : list AnnotatedArtwork :=
  match artworks with
  | [] => []
  | artwork :: rest =>
      {| withImage := artwork;
         annotations := annotation out narrative index artwork |}
      :: annotated out narrative rest (S index)
  end.

(** The store after step 5 of [processArtQuery]. *)
Definition stored (out : Outside) (query : Field)
    (works : list AnnotatedArtwork) (cache : option (gmap string CacheEntry))
  : option (gmap string CacheEntry) :=
  match cache_put out with
  | Some _ => cache
  | None =>
      if bool_decide (0 < length works)
      then <[cacheKey query :=
               {| artworks := works; expirationTtl := 60 * 60 * 24 * 30 |}]>
           <$> cache
      else cache
  end.

(** The image resolver gave no image for an item: a call rejected before
    the push, or [evaluate] resolved with nothing truthy. *)
Definition noImage (run : PageRun) : bool :=
  match run with
  | PageRejects => true
  | PageEvaluates src _ => negb (truthy src)
  end.







(** The states written between [a] and a later [a']. *)
Definition written (a a' : Agent) : list ArtAgentState :=
  drop (length (stateUpdates a)) (stateUpdates a').

Definition stagesWritten (a a' : Agent) : list Stage :=
  stageOrIdle <$> written a a'.

(** An event that submits a query: a [POST] to [.../query] whose body
    carries a query, or a socket message of type ['query']. *)
Definition isSubmission (e : Event) : bool :=
  match e with
  | Http request _ =>
      endsWith (pathname request) "/query"
      && bool_decide (method request = POST)
      && match json request with
         | Some query => truthy (text query)
         | None => false
         end
  | Socket (QueryMessage _) => true
  | _ => false
  end.

(** A store as this agent fills it: no entry holds an empty list. *)
Definition cacheSound (cache : option (gmap string CacheEntry)) : Prop :=
  ∀ kv key entry,
    cache = Some kv → kv !! key = Some entry → artworks entry ≠ [].



(** The agent the alarm runs a task on: the task is off the schedule. *)
Definition unscheduled (rest : list Field) (a : Agent) : Agent :=
  {| this_state := this_state a; ART_CACHE := ART_CACHE a;
     schedules := rest;
     stateUpdates := stateUpdates a;
     clockReads := clockReads a; uuidDraws := uuidDraws a |}.

(** What handling one event does to the agent: nothing to its state (an
    entry of the store may expire); a submission that misses the store; a
    submission answered from the store; the run of the oldest task. *)
Inductive Handled (clock : nat → N) (e : Event) (a a' : Agent) : Prop :=
  | handled_quietly :
      state a' = state a →
      stateUpdates a' = stateUpdates a →
      schedules a' = schedules a →
      (ART_CACHE a' = ART_CACHE a
       ∨ ∃ key, ART_CACHE a' = delete key <$> ART_CACHE a) →
      this_state a' = this_state a →
      Handled clock e a a'
  | handled_miss (query : Field) (t : N) :
      isSubmission e = true →
      state a' = submitted query t →
      stateUpdates a' = stateUpdates a ++ [submitted query t] →
      schedules a' = schedules a ++ [query] →
      ART_CACHE a' = ART_CACHE a →
      this_state a' = Some (submitted query t) →
      Handled clock e a a'
  | handled_hit (query : Field) (t : N)
      (kv : gmap string CacheEntry) (entry : CacheEntry) :
      isSubmission e = true →
      ART_CACHE a = Some kv →
      kv !! cacheKey query = Some entry →
      state a' = cached query (artworks entry) t →
      stateUpdates a' = stateUpdates a ++ [cached query (artworks entry) t] →
      schedules a' = schedules a →
      ART_CACHE a' = ART_CACHE a →
      this_state a' = Some (cached query (artworks entry) t) →
      Handled clock e a a'
  | handled_alarm (out : Outside) (query : Field)
      (rest : list Field) :
      e = Alarm out →
      schedules a = query :: rest →
      a' = (processArtQuery clock out query (unscheduled rest a)).1 →
      Handled clock e a a'.

(** Closes a goal [Handled clock e a a'] for an event that leaves the
    state alone. *)
Ltac quiet := apply handled_quietly; simpl; eauto.



(** The invariant of a session with respect to a property [Q] of result
    lists: the store only holds lists with [Q], and a complete state holds
    a list with [Q]. *)
Definition holds (Q : list AnnotatedArtwork → Prop) (a : Agent) : Prop :=
  (∀ kv key entry, ART_CACHE a = Some kv → kv !! key = Some entry →
                   Q (artworks entry))
  ∧ (processingStage (state a) = Some Complete →
     ∃ works, selectedWorks (state a) = Some works ∧ Q works).

(** A state that, when its stage is [Complete], holds works that [Q]. *)
Definition completeWith (Q : list AnnotatedArtwork → Prop)
    (s : ArtAgentState) : Prop :=
  processingStage s = Some Complete →
  ∃ works, selectedWorks s = Some works ∧ Q works.

(** What reading a property of [this.state] throws before the first
    [setState]. *)
Definition noState : Thrown :=
  JsError "Cannot read properties of undefined (reading 'processingStage')".



(** ** Sample data *)

Definition sampleClock (n : nat) : N := 1700000000000 + N.of_nat n.

Definition sampleUUID (n : nat) : string := "uuid-" +:+ pretty n.

Definition sampleJson (t : string) : ArtworkJson :=
  {| json_title := Text t; json_artist := Text "Leonardo da Vinci";
     json_year := Some 1498%Z; json_period := None;
     json_location := Some "" |}.

Definition sampleAnnotations : AnnotationsJson :=
  {| json_historicalContext := Some "Painted for a refectory.";
     json_artisticStyle := None;
     json_biblicalNarrative := Some "";
     json_interestingDetails := Some ["The hands"];
     json_uniqueInterpretation := Some "The moment of the announcement." |}.

(** Three candidates; the image of the second cannot be resolved, the
    annotations of the first cannot be extracted. *)
Definition sampleOut : Outside :=
  {| ai_research := λ _,
       Parsed {| first := sampleJson "One";
                 others := [Some (sampleJson "Two");
                            Some (sampleJson "Three")] |};
     browser_launch := None;
     browser_page := λ index _,
       match index with
       | 1 => PageRejects
       | _ => PageEvaluates (Some "https://images.example/supper.jpg") false
       end;
     browser_close := None;
     ai_annotate := λ index _ _,
       match index with
       | 0 => NoJson
       | _ => Parsed sampleAnnotations
       end;
     cache_put := None |}.

(** The model answers in prose. *)
Definition sampleProse : Outside :=
  {| ai_research := λ _, NoJson;
     browser_launch := None;
     browser_page := λ _ _, PageRejects;
     browser_close := None;
     ai_annotate := λ _ _ _, NoJson;
     cache_put := None |}.


(** One candidate whose image is found and whose page then fails to
    close. *)
Definition sampleCloseRejects : Outside :=
  {| ai_research := λ _,
       Parsed {| first := sampleJson "One"; others := [] |};
     browser_launch := None;
     browser_page := λ _ _,
       PageEvaluates (Some "https://images.example/supper.jpg") true;
     browser_close := None;
     ai_annotate := λ _ _ _, Parsed sampleAnnotations;
     cache_put := None |}.

Definition samplePost (query : string) : Request :=
  {| method := POST; pathname := "/agents/christian-art-agent/explorer/query";
     json := Some (Text query) |}.

Definition sampleAgent : Agent := fresh (Some ∅).

(** ** Vocabulary for the handlers, the store and the page *)

(** An entry as [processArtQuery] writes it: under the key of a query,
    with works and the thirty days of [expirationTtl]. *)
Definition entryWritten (key : string) (entry : CacheEntry) : Prop :=
  (∃ query, key = cacheKey query)
  ∧ artworks entry ≠ []
  ∧ expirationTtl entry = 2592000%N.

Definition storeWritten (cache : option (gmap string CacheEntry)) : Prop :=
  ∀ kv key entry,
    cache = Some kv → kv !! key = Some entry → entryWritten key entry.

(** A state as every [setState] of the agent leaves it: with a stage
    other than ['idle'] and with the time of the update. *)
Definition stamped (s : ArtAgentState) : Prop :=
  (∃ stage, processingStage s = Some stage ∧ stage ≠ Idle)
  ∧ is_Some (lastUpdated s).

(** No [send] to one of the sockets throws. *)
Definition obliging (throws : nat → Notification → option Thrown)
    (connections : list nat) : Prop :=
  ∀ c n, c ∈ connections → throws c n = None.

(** What the calls of [onStateUpdate] send while the agent goes from [a]
    to [a'], one call for each state written, the sockets staying the
    same. *)
Definition broadcast (throws : nat → Notification → option Thrown)
    (connections : list nat) (a a' : Agent)
  : list (nat * Notification) :=
  written a a' ≫= λ s, (onStateUpdate throws connections s).1.

(** What one socket is sent, in order. *)
Definition inbox (connection : nat) (sent : list (nat * Notification))
  : list Notification :=
  (filter (λ m, m.1 = connection) sent).*2.

(** The messages of [onStateUpdate] for one state. *)
Definition notes (s : ArtAgentState) : list Notification :=
  StateNotification (processingStage s) (lastUpdated s) (error s)
  :: match processingStage s, selectedWorks s with
     | Some Complete, Some works =>
         [ResultsNotification (currentQuery s) works]
     | _, _ => []
     end.

(** The messages a socket takes of those sent to it in order, up to the
    first [send] that throws, and what that one throws. *)
Fixpoint taken (throws : Notification → option Thrown)
    (messages : list Notification) : list Notification * option Thrown :=
  match messages with
  | [] => ([], None)
  | m :: rest =>
      match throws m with
      | Some e => ([], Some e)
      | None => (m :: (taken throws rest).1, (taken throws rest).2)
      end
  end.

(** The page takes messages one after the other. *)
Definition deliver (messages : list AgentMessage) (s : App.State)
  : App.State :=
  foldl (λ s m, App.onmessage m s) s messages.


(** The two requests of [checkStatus]. *)
Definition statusRequest : Request :=
  {| method := GET;
     pathname := "/agents/christian-art-agent-backend/status";
     json := None |}.

Definition resultsRequest : Request :=
  {| method := GET;
     pathname := "/agents/christian-art-agent-backend/results";
     json := None |}.

(** ** More sample data *)

Definition sampleApp : App.State :=
  {| App.query := "The Last Supper"; App.results := None;
     App.status := Some Idle; App.selectedArtwork := None;
     App.isLoading := false; App.error := None; App.socket := true |}.

(** The agent over another store, and the world with another fate for
    [ART_CACHE.put]. *)
Definition withStore (cache : option (gmap string CacheEntry)) (a : Agent)
  : Agent :=
  {| this_state := this_state a; ART_CACHE := cache;
     schedules := schedules a;
     stateUpdates := stateUpdates a;
     clockReads := clockReads a; uuidDraws := uuidDraws a |}.

Definition withPut (put : option Thrown) (out : Outside) : Outside :=
  {| ai_research := ai_research out;
     browser_launch := browser_launch out;
     browser_page := browser_page out;
     browser_close := browser_close out;
     ai_annotate := ai_annotate out;
     cache_put := put |}.

(** What the state tells a reader, the time of the update apart. *)
Definition told (s : ArtAgentState)
  : Field * option (list AnnotatedArtwork) * option Stage
    * option string :=
  (currentQuery s, selectedWorks s, processingStage s, error s).



(** What a request of the page settles with when the read of the store
    does not fail. *)
Definition answer (clock : nat → N) (randomUUID : nat → string)
    (request : Request) (a : Agent) : Thrown + Response :=
  (onRequest clock randomUUID request None a).2.

Definition sampleWork : AnnotatedArtwork :=
  {| withImage := placeholder (candidate 1 0 (sampleJson "One"));
     annotations := defaultAnnotations |}.

Definition sampleEntry : CacheEntry :=
  {| artworks := [sampleWork]; expirationTtl := 60 * 60 * 24 * 30 |}.

(** A run of the sample query that fails, and one that completes. *)
Definition sampleFailed : Agent :=
  (processArtQuery sampleClock sampleProse (Text "The Last Supper")
     sampleAgent).1.

Definition sampleCompleted : Agent :=
  (processArtQuery sampleClock sampleOut (Text "The Last Supper")
     sampleAgent).1.


(** A title that ends in a high surrogate without its partner, as
    [JSON.parse] yields it for a text that holds the escape of one. *)
Definition sampleBrokenTitle : string :=
  "Piet" +:+ String (ascii_of_nat 195) (String (ascii_of_nat 160)
    (" " +:+ String (ascii_of_nat 237) (String (ascii_of_nat 160)
       (String (ascii_of_nat 189) EmptyString)))).

(** Two candidates, the first with that title; the page for the first
    cannot be opened, the second has its image. *)
Definition sampleBroken : Outside :=
  {| ai_research := λ _,
       Parsed {| first := sampleJson sampleBrokenTitle;
                 others := [Some (sampleJson "Two")] |};
     browser_launch := None;
     browser_page := λ index _,
       match index with
       | 0 => PageRejects
       | _ => PageEvaluates (Some "https://images.example/supper.jpg") false
       end;
     browser_close := None;
     ai_annotate := λ _ _ _, Parsed sampleAnnotations;
     cache_put := None |}.

(** The two candidates of a run over it that a submission preceded. *)
Definition sampleFirst : ArtworkInfo :=
  candidate (sampleClock 2) 0 (sampleJson sampleBrokenTitle).

Definition sampleSecond : ArtworkInfo :=
  candidate (sampleClock 3) 1 (sampleJson "Two").

(** No [send] throws; the [send] of every message to socket 2 throws. *)
Definition sampleSends (c : nat) (m : Notification) : option Thrown := None.

Definition sampleClosing (c : nat) (m : Notification) : option Thrown :=
  if bool_decide (c = 2) then Some (JsError "WebSocket is closed") else None.

(** The states a completed run of the sample query writes, after the one
    of its submission. *)
Definition sampleLog : list ArtAgentState :=
  stateUpdates
    (session sampleClock sampleUUID (fresh (Some ∅))
       [Http (samplePost "The Last Supper") None; Alarm sampleOut]).

(** An agent in the middle of that run, while the images are fetched, and
    one at its end. *)
Definition sampleFetching : Agent :=
  wrote (default emptyState (sampleLog !! 2)) sampleAgent.

Definition sampleDone : Agent :=
  wrote (default emptyState (sampleLog !! 4)) sampleAgent.
(** * Properties *)

Implicit Types (a : Agent) (out : Outside) (query : Field).

(** ** Decimal renderings and ids *)

Lemma pretty_N_char_no_dash (x : N) : pretty_N_char x ≠ "-"%char.
Proof. unfold pretty_N_char. by repeat case_match. Qed.

Lemma pretty_N_go_dashless (x : N) (s : string) :
  dashless s → dashless (pretty_N_go x s).
Proof.
  revert s. induction (N.lt_wf_0 x) as [x _ IH]; intros s Hs.
  destruct (decide (x = 0%N)) as [->|Hx].
  - by rewrite pretty_N_go_0.
  - rewrite pretty_N_go_step by lia.
    apply IH.
    + apply N.div_lt; lia.
    + split; [apply pretty_N_char_no_dash | done].
Qed.

Lemma pretty_N_dashless (x : N) : dashless (pretty x).
Proof.
  unfold pretty, pretty_N. case_decide.
  - by split.
  - by apply pretty_N_go_dashless.
Qed.

Lemma dash_split (s1 s2 r1 r2 : string) :
  dashless s1 → dashless s2 →
  s1 +:+ "-" +:+ r1 = s2 +:+ "-" +:+ r2 → s1 = s2 ∧ r1 = r2.
Proof.
  revert s2. induction s1 as [|c s1 IH]; intros [|d s2] H1 H2 Heq; simpl in *.
  - by injection Heq.
  - injection Heq as <- _. by destruct H2.
  - injection Heq as -> _. by destruct H1.
  - injection Heq as -> Heq.
    destruct (IH s2) as [-> ->]; [tauto..|done].
Qed.

(** Two ids agree only at the same position, whatever the clock read. *)
Lemma artworkId_inj (t1 t2 : N) (i1 i2 : nat) :
  artworkId t1 i1 = artworkId t2 i2 → i1 = i2.
Proof.
  unfold artworkId. simpl. intros Heq.
  repeat (injection Heq as Heq).
  apply dash_split in Heq as [_ Heq]; [|apply pretty_N_dashless..].
  by apply (inj pretty) in Heq.
Qed.

(** ** What a run computes *)

Section Runs.

Context (clock : nat → N) (randomUUID : nat → string).

Lemma ticked_ticked (n m : nat) (a : Agent) :
  ticked n (ticked m a) = ticked (n + m) a.
Proof. unfold ticked; simpl. f_equal. lia. Qed.

Lemma ticked_0 (a : Agent) : ticked 0 a = a.
Proof. by destruct a. Qed.

Lemma addId_run (artwork : option ArtworkJson) (index : nat) (a : Agent) :
  addId clock artwork index a =
  (ticked 1 a,
   match artwork with
   | Some artwork => inr (candidate (clock (clockReads a)) index artwork)
   | None => inl (JsError "Cannot read properties of null")
   end).
Proof. by destruct artwork. Qed.

Lemma map_index_addId (l : list (option ArtworkJson)) (index : nat)
    (a : Agent) :
  ∃ n, map_index (addId clock) l index a =
       (ticked n a,
        match identified clock l index (clockReads a) with
        | Some infos => inr infos
        | None => inl (JsError "Cannot read properties of null")
        end).
Proof.
  revert index a. induction l as [|[artwork|] l IH]; intros index a.
  - exists 0. by rewrite ticked_0.
  - destruct (IH (S index) (ticked 1 a)) as [n Hn].
    exists (n + 1). rewrite <- ticked_ticked.
    cbn [map_index identified]. unfold mbind, ES_bind.
    rewrite addId_run, Hn. simpl.
    by destruct (identified clock l (S index) (S (clockReads a))).
  - exists 1. cbn [map_index identified]. unfold mbind, ES_bind.
    by rewrite addId_run.
Qed.

Lemma identified_Some (l : list (option ArtworkJson)) (index reads : nat)
    (infos : list ArtworkInfo) :
  identified clock l index reads = Some infos →
  length infos = length l
  ∧ ∀ k x, infos !! k = Some x →
      ∃ artwork, l !! k = Some (Some artwork)
                 ∧ x = candidate (clock (reads + k)) (index + k) artwork.
Proof.
  revert index reads infos.
  induction l as [|[artwork|] l IH]; intros index reads infos; simpl.
  - intros [= <-]. split; [done|]. intros k x Hk. by destruct k.
  - destruct (identified clock l (S index) (S reads)) as [infos'|] eqn:E;
      [|done].
    intros [= <-]. destruct (IH _ _ _ E) as [Hlen Hnth].
    split; [simpl; by f_equal|].
    intros [|k] x Hk; simpl in *.
    + injection Hk as <-. exists artwork.
      by rewrite !Nat.add_0_r.
    + destruct (Hnth k x Hk) as (j & Hj & ->). exists j.
      split; [done|]. by rewrite <- !Nat.add_succ_comm.
  - done.
Qed.


Lemma researchArtworks_run (out : Outside) (query : Field)
    (a : Agent) :
  ∃ n, researchArtworks clock out query a =
       (ticked n
          (wrote (withStage (state a) Researching (clock (clockReads a)))
             (ticked 1 a)),
        match researched clock out query (S (clockReads a)) with
        | Some infos => inr infos
        | None => inl researchFailure
        end).
Proof.
  unfold researchArtworks, researched.
  unfold mbind, ES_bind, getState, now, setState, try_catch.
  cbn beta iota.
  set (a1 := wrote (withStage (state a) Researching (clock (clockReads a)))
               (ticked 1 a)).
  change {| this_state := Some (withStage _ _ _); ART_CACHE := _;
            schedules := _; stateUpdates := _; clockReads := _;
            uuidDraws := _ |} with a1.
  destruct (ai_research out query) as [| | |arr];
    try (exists 0; by rewrite ticked_0).
  destruct (map_index_addId (elements arr) 0 a1) as [n Hn].
  exists n. rewrite Hn.
  change (clockReads a1) with (S (clockReads a)).
  by destruct (identified _ _ _).
Qed.

Lemma loneSurrogate_app_r (x y : string) :
  loneSurrogate y = true → loneSurrogate (x +:+ y) = true.
Proof.
  intros Hy. induction x as [|c x IH]; [done|].
  change (String c x +:+ y) with (String c (x +:+ y)).
  destruct (x +:+ y) as [|c1 rest] eqn:E; [done|].
  cbn [loneSurrogate]. cbn [loneSurrogate] in IH. rewrite IH.
  apply orb_true_r.
Qed.

Lemma loneSurrogate_app_l (y z : string) :
  loneSurrogate y = true → loneSurrogate (y +:+ z) = true.
Proof.
  induction y as [|c y IH]; [done|]. destruct y as [|c1 y]; [done|].
  change (String c (String c1 y) +:+ z)
    with (String c (String c1 y +:+ z)).
  change (String c1 y +:+ z) with (String c1 (y +:+ z)) in *.
  cbn [loneSurrogate]. cbn [loneSurrogate] in IH.
  intros [H|H]%orb_true_iff; [by rewrite H|].
  rewrite (IH H). apply orb_true_r.
Qed.


(** A title that cannot be encoded spoils the search text. *)
Lemma malformedTitle_searchQuery (artwork : ArtworkInfo) :
  malformedTitle artwork = true → loneSurrogate (searchQuery artwork) = true.
Proof.
  intros H. unfold searchQuery.
  apply loneSurrogate_app_r, loneSurrogate_app_r.
  by apply loneSurrogate_app_l.
Qed.

(** One pass of the image loop: it throws when the title cannot be
    encoded, since then both the [try] block and the [catch] block
    throw, and pushes once or twice otherwise. *)
Lemma imagePass_run (out : Outside) (index : nat) (artwork : ArtworkInfo)
    (arr : list ArtworkWithImage) :
  imagePass out index artwork arr
  = if malformedTitle artwork then (arr, inl uriError)
    else (arr ++ pushed out index artwork, inr ()).
Proof.
  unfold imagePass, pushed, pageRun, try_catch, mbind, ES_bind.
  unfold searchUrl, withPlaceholder, encodeURIComponent, mbind, ES_bind.
  unfold push, throw, placeholder, searchAddress.
  destruct (malformedTitle artwork) eqn:Ht.
  - rewrite (malformedTitle_searchQuery _ Ht).
    unfold malformedTitle in Ht. by rewrite Ht.
  - unfold malformedTitle in Ht. rewrite Ht.
    destruct (loneSurrogate (searchQuery artwork)); [done|]. simpl.
    destruct (browser_page out index _) as [|[imageUrl|] [|]];
      try done; simpl.
    all: try destruct (bool_decide _); simpl; rewrite ?Ht; simpl;
      by rewrite <- ?app_assoc.
Qed.

Lemma imageLoop_run (out : Outside) (artworks : list ArtworkInfo)
    (index : nat) (arr : list ArtworkWithImage) :
  if existsb malformedTitle artworks
  then ∃ arr', for_of (imagePass out) artworks index arr
               = (arr', inl uriError)
  else for_of (imagePass out) artworks index arr
       = (arr ++ resolved out artworks index, inr ()).
Proof.
  revert index arr. induction artworks as [|artwork rest IH]; intros; simpl.
  - by rewrite app_nil_r.
  - unfold mbind, ES_bind. rewrite imagePass_run.
    destruct (malformedTitle artwork); simpl; [by eexists|].
    specialize (IH (S index) (arr ++ pushed out index artwork)).
    destruct (existsb malformedTitle rest).
    + destruct IH as [arr' ->]. by eexists.
    + by rewrite IH, <- app_assoc.
Qed.

Lemma fetchArtworkImages_run (out : Outside) (artworks : list ArtworkInfo)
    (a : Agent) :
  fetchArtworkImages clock out artworks a =
  (wrote (withStage (state a) Fetching (clock (clockReads a))) (ticked 1 a),
   match fetchFailure out artworks with
   | Some e => inl e
   | None => inr (resolved out artworks 0)
   end).
Proof.
  unfold fetchArtworkImages, fetchFailure, browserFailure, filling,
    try_finally, await.
  unfold mbind, ES_bind, getState, now, setState. cbn beta iota.
  pose proof (imageLoop_run out artworks 0 []) as Hloop.
  destruct (browser_launch out); [reflexivity|].
  unfold mret, ES_ret. cbn beta iota.
  destruct (existsb malformedTitle artworks).
  - destruct Hloop as [arr' ->].
    destruct (browser_close out); reflexivity.
  - rewrite Hloop. destruct (browser_close out); reflexivity.
Qed.

Lemma annotatePass_run (out : Outside) (narrative : Field)
    (index : nat) (artwork : ArtworkWithImage)
    (arr : list AnnotatedArtwork) :
  annotatePass out narrative index artwork arr =
  (arr ++ [{| withImage := artwork;
              annotations := annotation out narrative index artwork |}],
   inr ()).
Proof.
  unfold annotatePass, annotation, try_catch.
  by destruct (ai_annotate out index artwork narrative).
Qed.

Lemma annotateLoop_run (out : Outside) (narrative : Field)
    (artworks : list ArtworkWithImage) (index : nat)
    (arr : list AnnotatedArtwork) :
  for_of (annotatePass out narrative) artworks index arr
  = (arr ++ annotated out narrative artworks index, inr ()).
Proof.
  revert index arr. induction artworks as [|artwork rest IH]; intros; simpl.
  - by rewrite app_nil_r.
  - unfold mbind, ES_bind. rewrite annotatePass_run, IH.
    by rewrite <- app_assoc.
Qed.

Lemma annotateArtworks_run (out : Outside)
    (artworks : list ArtworkWithImage) (narrative : Field)
    (a : Agent) :
  annotateArtworks clock out artworks narrative a =
  (wrote (withStage (state a) Annotating (clock (clockReads a)))
     (ticked 1 a),
   inr (annotated out narrative artworks 0)).
Proof.
  unfold annotateArtworks, filling.
  unfold mbind, ES_bind, getState, now, setState. cbn beta iota.
  by rewrite annotateLoop_run.
Qed.

(** The three ways a run goes: the research throws; the image stage
    throws; or the run completes. *)
Lemma processArtQuery_run (out : Outside) (query : Field)
    (a : Agent) :
  ∃ t1 t2 t3 t4 : N,
    let a' := (processArtQuery clock out query a).1 in
    let s1 := withStage (state a) Researching t1 in
    let s2 := withStage s1 Fetching t2 in
    let s3 := withStage s2 Annotating t3 in
    schedules a' = schedules a ∧
    match researched clock out query (S (clockReads a)) with
    | None =>
        let failed := withError s1 (messageOf researchFailure) t2 in
        stateUpdates a' = stateUpdates a ++ [s1; failed]
        ∧ state a' = failed ∧ ART_CACHE a' = ART_CACHE a
    | Some candidates =>
        match fetchFailure out candidates with
        | Some e =>
            let failed := withError s2 (messageOf e) t3 in
            stateUpdates a' = stateUpdates a ++ [s1; s2; failed]
            ∧ state a' = failed ∧ ART_CACHE a' = ART_CACHE a
        | None =>
            let works := annotated out query (resolved out candidates 0) 0 in
            let done := withWorks s3 works t4 in
            stateUpdates a' = stateUpdates a ++ [s1; s2; s3; done]
            ∧ state a' = done
            ∧ ART_CACHE a' = stored out query works (ART_CACHE a)
        end
    end.
Proof.
  destruct (researchArtworks_run out query a) as [n Hres].
  unfold processArtQuery, try_catch, mbind, ES_bind. rewrite Hres.
  exists (clock (clockReads a)).
  destruct (researched clock out query (S (clockReads a))) as [candidates|].
  - rewrite fetchArtworkImages_run.
    exists (clock (n + S (clockReads a))).
    destruct (fetchFailure out candidates) as [e|].
    + exists (clock (S (n + S (clockReads a)))), 0%N. simpl.
      by rewrite <- !app_assoc.
    + rewrite annotateArtworks_run.
      exists (clock (S (n + S (clockReads a)))),
             (clock (S (S (n + S (clockReads a))))).
      unfold stored, cachePut, await, kvStore, cacheBinding, getState, now,
        setState. cbn beta iota. simpl.
      rewrite <- !app_assoc. simpl.
      set (works := annotated out query (resolved out candidates 0) 0).
      destruct (decide (0 < length works)) as [Hpos|Hpos];
        rewrite ?(bool_decide_eq_true_2 _ Hpos),
                ?(bool_decide_eq_false_2 _ Hpos);
        destruct (ART_CACHE a) as [kv|], (cache_put out) as [e|];
        first [ rewrite bool_decide_eq_true_2 by eauto
              | rewrite bool_decide_eq_false_2
                  by (intros [[? ?] ?]; done) ];
        done.
  - exists (clock (n + S (clockReads a))), 0%N, 0%N. simpl.
    by rewrite <- app_assoc.
Qed.


(** ** C10: the ids of one research run *)

(** C10.  The ids [researchArtworks] gives to the candidates of one run are
    pairwise distinct: the id at position [k] is made of the clock reading
    taken for that element and of [k] itself. *)
Theorem research_ids_distinct (out : Outside) (query : Field)
    (a : Agent) (candidates : list ArtworkInfo) :
  (researchArtworks clock out query a).2 = inr candidates →
  NoDup (id <$> candidates)
  ∧ ∀ k x, candidates !! k = Some x →
           id x = artworkId (clock (S (clockReads a) + k)) k.
Proof.
  destruct (researchArtworks_run out query a) as [n ->]. simpl.
  unfold researched.
  destruct (ai_research out query) as [| | |arr]; try done.
  destruct (identified clock (elements arr) 0 (S (clockReads a)))
    as [infos|] eqn:E; [|done].
  intros [= <-]. apply identified_Some in E as [_ Hnth].
  assert (∀ k x, infos !! k = Some x →
            id x = artworkId (clock (S (clockReads a) + k)) k) as Hid.
  { intros k x Hk. by destruct (Hnth k x Hk) as (j & _ & ->). }
  split; [|done].
  apply NoDup_alt. intros i j s Hi Hj.
  rewrite list_lookup_fmap in Hi, Hj.
  destruct (infos !! i) as [x|] eqn:Ex; [|done].
  destruct (infos !! j) as [y|] eqn:Ey; [|done].
  simpl in Hi, Hj. injection Hi as Hi. injection Hj as Hj.
  rewrite (Hid i x Ex) in Hi. rewrite (Hid j y Ey) in Hj.
  apply (artworkId_inj _ _ _ _ (eq_trans Hi (eq_sym Hj))).
Qed.

(** ** An image that cannot be resolved *)


Lemma pushed_nonempty (out : Outside) (index : nat) (artwork : ArtworkInfo) :
  pushed out index artwork ≠ [].
Proof.
  unfold pushed. by destruct (pageRun out index artwork).
Qed.



Lemma placeholder_nonempty (artwork : ArtworkInfo) :
  imageUrl (placeholder artwork) ≠ "".
Proof. done. Qed.


(** ** C3: annotations that cannot be extracted *)




(** ** What handling an event does *)

Lemma handle_Handled (e : Event) (a : Agent) :
  Handled clock e a (handle clock randomUUID a e).
Proof.
  destruct e as [request cache_get| |message|out|key]; simpl.
  - unfold onRequest.
    destruct (endsWith (pathname request) "/query"
              && bool_decide (method request = POST)) eqn:Hroute;
      [|destruct (endsWith (pathname request) "/status");
        [unfold statusOf
        |destruct (endsWith (pathname request) "/results");
         [unfold results|quiet]];
        unfold mbind, ES_bind, readState;
        (destruct (this_state a) as [s|]; [|quiet]);
        try destruct (bool_decide (processingStage s ≠ Some Complete));
        quiet].
    unfold submit, try_catch. simpl.
    destruct (json request) as [query|] eqn:Hjson; [|quiet].
    destruct (truthy (text query)) eqn:Hquery; [|quiet].
    assert (isSubmission (Http request cache_get) = true) as Hsub.
    { simpl. by rewrite Hroute, Hjson, Hquery. }
    unfold fromCache, cacheBinding, mbind, ES_bind, try_catch, await. simpl.
    destruct (ART_CACHE a) as [kv|] eqn:Hcache; simpl.
    + destruct cache_get as [rejection|]; simpl.
      * by eapply handled_miss.
      * destruct (kv !! cacheKey query) as [entry|] eqn:Hentry; simpl.
        -- by eapply handled_hit.
        -- by eapply handled_miss.
    + by eapply handled_miss.
  - unfold onConnect, mbind, ES_bind, readState.
    destruct (this_state a) as [s|]; [|quiet]. repeat case_match; quiet.
  - destruct message as [|query|]; simpl; [quiet| |quiet].
    by eapply handled_miss.
  - unfold alarm. destruct (schedules a) as [|query rest] eqn:Hs.
    + quiet.
    + by eapply handled_alarm.
  - quiet.
Qed.

(** ** C7: how a run ends *)


Lemma researched_nonempty (out : Outside) (query : Field)
    (reads : nat) (candidates : list ArtworkInfo) :
  researched clock out query reads = Some candidates → candidates ≠ [].
Proof.
  unfold researched. destruct (ai_research out query) as [| | |arr]; try done.
  intros H%identified_Some. destruct H as [Hlen _].
  by destruct candidates.
Qed.

Lemma resolved_nonempty (out : Outside) (artworks : list ArtworkInfo)
    (index : nat) :
  artworks ≠ [] → resolved out artworks index ≠ [].
Proof.
  destruct artworks as [|artwork rest]; [done|]. simpl. intros _ H.
  apply app_eq_nil in H as [H _]. by apply pushed_nonempty in H.
Qed.

Lemma annotated_nonempty (out : Outside) (narrative : Field)
    (artworks : list ArtworkWithImage) (index : nat) :
  artworks ≠ [] → annotated out narrative artworks index ≠ [].
Proof. by destruct artworks. Qed.




(** ** C1: the order of the stages *)

Lemma written_app (a a' : Agent) (l : list ArtAgentState) :
  stateUpdates a' = stateUpdates a ++ l → written a a' = l.
Proof. unfold written. intros ->. by rewrite drop_app_length. Qed.





(** ** Sessions *)

Lemma session_snoc (a : Agent) (events : list Event) (e : Event) :
  session clock randomUUID a (events ++ [e])
  = handle clock randomUUID (session clock randomUUID a events) e.
Proof. unfold session. by rewrite foldl_app. Qed.

(** An invariant of the agent is an invariant of its sessions. *)
Lemma session_ind (P : Agent → Prop) (a : Agent) (events : list Event) :
  P a → (∀ a' e, P a' → P (handle clock randomUUID a' e)) →
  P (session clock randomUUID a events).
Proof.
  intros Ha Hstep. induction events as [|e events IH] using rev_ind; [done|].
  rewrite session_snoc. by apply Hstep.
Qed.

Lemma handle_holds (Q : list AnnotatedArtwork → Prop) (a : Agent)
    (e : Event) :
  (∀ works, works ≠ [] → Q works) →
  holds Q a → holds Q (handle clock randomUUID a e).
Proof.
  intros HQ [Hcache Hstate]. unfold holds.
  destruct (handle_Handled e a)
    as [Hs _ _ Hkv|q t _ Hs _ _ Hkv|q t kv entry _ Hkv' Hentry Hs _ _ Hkv
        |out q rest -> Hsched ->].
  - split; [|by rewrite Hs].
    intros kv key entry. destruct Hkv as [->|[key' ->]]; [by apply Hcache|].
    destruct (ART_CACHE a) as [kv'|] eqn:E; [|done]. simpl.
    intros [= <-] [_ Hentry]%lookup_delete_Some. by eapply Hcache.
  - split; [by rewrite Hkv|]. by rewrite Hs.
  - split; [by rewrite Hkv|]. rewrite Hs. simpl. intros _.
    eexists. split; [done|]. by eapply Hcache.
  - destruct (processArtQuery_run out q (unscheduled rest a))
      as (t1 & t2 & t3 & t4 & H).
    simpl in H. destruct H as [_ H].
    destruct (researched clock out q (S (clockReads a)))
      as [candidates|] eqn:E; [destruct (fetchFailure out _)|].
    + destruct H as (_ & -> & ->). by split.
    + destruct H as (_ & -> & ->).
      assert (annotated out q (resolved out candidates 0) 0 ≠ []) as Hne.
      { apply annotated_nonempty, resolved_nonempty.
        by eapply researched_nonempty. }
      split; [|by eauto].
      unfold stored. intros kv key entry.
      destruct (cache_put out); [by apply Hcache|].
      case_bool_decide; [|by apply Hcache].
      destruct (ART_CACHE a) as [kv'|] eqn:Ekv; [|done]. simpl.
      intros [= <-] [[_ <-]|[_ Hentry]]%lookup_insert_Some; [by apply HQ|].
      by eapply Hcache.
    + destruct H as (_ & -> & ->). by split.
Qed.

Lemma session_holds (Q : list AnnotatedArtwork → Prop)
    (cache : option (gmap string CacheEntry)) (events : list Event) :
  (∀ works, works ≠ [] → Q works) →
  (∀ kv key entry, cache = Some kv → kv !! key = Some entry →
                   Q (artworks entry)) →
  holds Q (session clock randomUUID (fresh cache) events).
Proof.
  intros HQ Hcache. apply session_ind.
  - by split.
  - intros a e. by apply handle_holds.
Qed.

(** Every run writes a state: after it [this.state] is defined. *)
Lemma processArtQuery_written (out : Outside) (query : Field) (a : Agent) :
  this_state (processArtQuery clock out query a).1
  = Some (state (processArtQuery clock out query a).1).
Proof.
  destruct (researchArtworks_run out query a) as [n Hres].
  unfold processArtQuery, try_catch, mbind, ES_bind. rewrite Hres.
  destruct (researched clock out query (S (clockReads a))) as [candidates|];
    [|done].
  rewrite fetchArtworkImages_run.
  destruct (fetchFailure out candidates) as [e|]; [done|].
  rewrite annotateArtworks_run.
  unfold cachePut, await, kvStore, cacheBinding, getState, now, setState.
  cbn beta iota. simpl.
  destruct (bool_decide _); [|done].
  unfold try_catch, mbind, ES_bind. by destruct (cache_put out).
Qed.

(** [this.state] is the last state handed to [onStateUpdate]. *)
Lemma handle_current (a : Agent) (e : Event) :
  this_state a = last (stateUpdates a) →
  this_state (handle clock randomUUID a e)
  = last (stateUpdates (handle clock randomUUID a e)).
Proof.
  intros Ha.
  destruct (handle_Handled e a)
    as [_ Hlog _ _ Hs|q t _ _ Hlog _ _ Hs|q t kv entry _ _ _ _ Hlog _ _ Hs
        |out q rest -> Hsched ->].
  - by rewrite Hs, Hlog.
  - by rewrite Hs, Hlog, last_snoc.
  - by rewrite Hs, Hlog, last_snoc.
  - rewrite processArtQuery_written.
    destruct (processArtQuery_run out q (unscheduled rest a))
      as (t1 & t2 & t3 & t4 & H).
    cbn zeta in H. destruct H as [_ H].
    destruct (researched clock out q (S (clockReads (unscheduled rest a))))
      as [candidates|]; [destruct (fetchFailure out _)|];
      destruct H as (-> & -> & _); by rewrite last_app.
Qed.

Lemma session_current (cache : option (gmap string CacheEntry))
    (events : list Event) :
  this_state (session clock randomUUID (fresh cache) events)
  = last (stateUpdates (session clock randomUUID (fresh cache) events)).
Proof. apply session_ind; [done|]. intros a e. apply handle_current. Qed.

(** Every state written so far, also in the middle of a run, holds works
    that [Q] when its stage is [Complete]. *)
Lemma handle_logged (Q : list AnnotatedArtwork → Prop) (a : Agent)
    (e : Event) :
  (∀ works, works ≠ [] → Q works) →
  holds Q a →
  Forall (completeWith Q) (stateUpdates a) →
  Forall (completeWith Q) (stateUpdates (handle clock randomUUID a e)).
Proof.
  intros HQ [Hcache _] Hlog.
  destruct (handle_Handled e a)
    as [_ -> _ _ _|q t _ _ -> _ _ _|q t kv entry _ Hkv Hentry _ -> _ _ _
        |out q rest -> Hsched ->]; [done|..].
  - apply Forall_app. split; [done|]. by repeat constructor.
  - apply Forall_app. split; [done|]. repeat constructor.
    intros _. eexists. split; [done|]. by eapply Hcache.
  - destruct (processArtQuery_run out q (unscheduled rest a))
      as (t1 & t2 & t3 & t4 & H).
    cbn zeta in H. destruct H as [_ H].
    destruct (researched clock out q (S (clockReads (unscheduled rest a))))
      as [candidates|] eqn:E; [destruct (fetchFailure out _)|];
      destruct H as (-> & _ & _); (apply Forall_app; split; [done|]);
      repeat constructor; try done.
    intros _. eexists. split; [done|]. apply HQ.
    apply annotated_nonempty, resolved_nonempty.
    by eapply researched_nonempty.
Qed.

Lemma session_logged (Q : list AnnotatedArtwork → Prop)
    (cache : option (gmap string CacheEntry)) (events : list Event) :
  (∀ works, works ≠ [] → Q works) →
  (∀ kv key entry, cache = Some kv → kv !! key = Some entry →
                   Q (artworks entry)) →
  Forall (completeWith Q)
    (stateUpdates (session clock randomUUID (fresh cache) events)).
Proof.
  intros HQ Hcache.
  cut (holds Q (session clock randomUUID (fresh cache) events)
       ∧ Forall (completeWith Q)
           (stateUpdates (session clock randomUUID (fresh cache) events)));
    [by intros [_ ?]|].
  apply session_ind.
  - split; [by split|constructor].
  - intros a e [Hholds Hlog]. split.
    + by apply handle_holds.
    + by apply handle_logged.
Qed.

(** ** The results operation *)

(** A [GET] of [.../results] is answered by [results]. *)
Lemma results_route (cache_get : option Thrown) :
  onRequest clock randomUUID
    {| method := GET;
       pathname := "/agents/christian-art-agent/explorer/results";
       json := None |} cache_get
  = results.
Proof. reflexivity. Qed.

(** X19.  In every state an agent is in once a state has been written,
    in the middle of a run as well as between the events, [results]
    answers with the not-ready body, under status 200, whenever the stage
    is not [Complete], and with the current query and a list of artworks
    that is not empty whenever it is.  The store the session starts from
    holds what earlier sessions of this agent wrote. *)
Theorem results_of_session (cache : option (gmap string CacheEntry))
    (events : list Event) (s : ArtAgentState) (b : Agent) :
  cacheSound cache →
  s ∈ stateUpdates (session clock randomUUID (fresh cache) events) →
  this_state b = Some s →
  (processingStage s ≠ Some Complete →
   results b = (b, inr {| status := 200;
                          body := NotReadyBody "Results not ready yet"
                                    (stageOrIdle s) (error s) |}))
  ∧ (processingStage s = Some Complete →
     ∃ works, works ≠ []
       ∧ results b = (b, inr {| status := 200;
                                body := ResultsBody (currentQuery s)
                                          (Some works) |})).
Proof.
  intros Hcache Hs Hb.
  pose proof (session_logged (λ works, works ≠ []) cache events) as Hlog.
  rewrite Forall_forall in Hlog. specialize (Hlog ltac:(done) Hcache s Hs).
  unfold results, mbind, ES_bind, readState. rewrite Hb. split.
  - intros Hstage. by rewrite bool_decide_eq_true_2.
  - intros Hstage. destruct (Hlog Hstage) as (works & Hworks & Hne).
    exists works. split; [done|].
    rewrite bool_decide_eq_false_2 by (by intros []).
    by rewrite Hworks.
Qed.

(** ** A socket that connects *)

(** X20.  In every state an agent is in once a state has been written,
    in the middle of a run as well as between the events, [onConnect]
    itself sends the state envelope with the current stage, the query and
    the error, and, when the stage is [Complete], the results envelope
    with the query and the artworks right after it; the agent is left as
    it was. *)
Theorem connect_sends_snapshot (cache : option (gmap string CacheEntry))
    (events : list Event) (s : ArtAgentState) (b : Agent) :
  s ∈ stateUpdates (session clock randomUUID (fresh cache) events) →
  this_state b = Some s →
  ∃ rest,
    onConnect b
    = (b, inr (StateEnvelope (stageOrIdle s) (currentQuery s) (error s)
               :: rest))
    ∧ (processingStage s = Some Complete →
       ∃ works, selectedWorks s = Some works
                ∧ rest = [ResultsEnvelope (currentQuery s) works])
    ∧ (processingStage s ≠ Some Complete → rest = []).
Proof.
  intros Hs Hb.
  pose proof (session_logged (λ _, True) cache events) as Hlog.
  rewrite Forall_forall in Hlog.
  specialize (Hlog ltac:(done) ltac:(done) s Hs).
  unfold onConnect, mbind, ES_bind, readState. rewrite Hb.
  destruct (processingStage s) as [[]|] eqn:Hstage;
    try (exists []; by split_and!).
  destruct (Hlog Hstage) as (works & Hworks & _). rewrite Hworks.
  exists [ResultsEnvelope (currentQuery s) works].
  split_and!; [done| |done]. intros _. by exists works.
Qed.

(** ** C8: which states carry an error or works *)


















(** ** C1: the order of the stages in a session *)


(** ** C4: the works of a completed run and its candidates *)

Lemma resolved_one_each (out : Outside) (artworks : list ArtworkInfo)
    (index : nat) :
  (∀ i artwork src, pageRun out i artwork ≠ PageEvaluates src true) →
  Forall2 (λ c w, info w = c) artworks (resolved out artworks index).
Proof.
  intros Hclose. revert index.
  induction artworks as [|artwork rest IH]; intros index; simpl;
    [constructor|].
  unfold pushed at 1. specialize (Hclose index artwork).
  destruct (pageRun out index artwork) as [|src [|]];
    [|by destruct (Hclose src)|]; simpl; constructor; auto.
  destruct src as [url|]; [|done]. simpl. by case_bool_decide.
Qed.

Lemma annotated_one_each (out : Outside) (narrative : Field)
    (artworks : list ArtworkWithImage) (index : nat) :
  Forall2 (λ w x, withImage x = w) artworks
    (annotated out narrative artworks index).
Proof.
  revert index. induction artworks; intros; simpl; constructor; auto.
Qed.

(** When no page fails to close after its image was pushed, the works of
    a completed run follow the candidates of its research one by one. *)
Lemma selected_follow_candidates (out : Outside) (query : Field)
    (a : Agent) (candidates : list ArtworkInfo) :
  (∀ i artwork src, pageRun out i artwork ≠ PageEvaluates src true) →
  (researchArtworks clock out query a).2 = inr candidates →
  processingStage (state (processArtQuery clock out query a).1)
  = Some Complete →
  ∃ works,
    selectedWorks (state (processArtQuery clock out query a).1) = Some works
    ∧ Forall2 (λ c w, info (withImage w) = c) candidates works.
Proof.
  intros Hclose Hres.
  destruct (researchArtworks_run out query a) as [n Hrun].
  rewrite Hrun in Hres. simpl in Hres.
  destruct (processArtQuery_run out query a) as (t1 & t2 & t3 & t4 & H).
  simpl in H. destruct H as [_ H].
  destruct (researched clock out query (S (clockReads a)))
    as [candidates'|]; [|done].
  injection Hres as ->.
  destruct (fetchFailure out _); destruct H as (_ & -> & _); [done|].
  intros _. eexists. split; [done|].
  eapply Forall2_trans;
    [|apply resolved_one_each, Hclose|apply annotated_one_each].
  by intros c w x <- <-.
Qed.

(** ** C5: a query submitted again *)



(** A socket message of type ['query'] never looks at the store: it sets
    the stage to [Analyzing] and schedules a run. *)
Lemma socket_submission (query : Field) (a : Agent) :
  let a' := (onMessage clock (QueryMessage query) a).1 in
  state a' = submitted query (clock (clockReads a))
  ∧ schedules a' = schedules a ++ [query]
  ∧ (onMessage clock (QueryMessage query) a).2
    = inr [StateEnvelope Analyzing query None].
Proof. done. Qed.


(** * Further properties of the handlers *)

(** ** Events that change nothing *)

(** X1.  A request that is not a [POST] of a query to [.../query], a socket
    message that is not of type ['query'] and a socket that connects leave
    the agent exactly as it was.  A [POST] to [.../query] whose body cannot
    be read is answered with status 500, one whose body holds no query or
    an empty one with status 400. *)
Theorem silent_events (e : Event) (a : Agent) (request : Request)
    (cache_get : option Thrown) :
  (isSubmission e = false →
   (∀ out, e ≠ Alarm out) → (∀ key, e ≠ Expires key) →
   handle clock randomUUID a e = a)
  ∧ (endsWith (pathname request) "/query" = true →
     method request = POST →
     (json request = None →
      onRequest clock randomUUID request cache_get a
      = (a, inr {| status := 500;
                   body := ErrorBody "Failed to process query" |}))
     ∧ (∀ query,
        json request = Some query → truthy (text query) = false →
        onRequest clock randomUUID request cache_get a
        = (a, inr {| status := 400;
                     body := ErrorBody "No query provided" |}))).
Proof.
  split.
  - intros Hno Halarm Hexp.
    destruct e as [r g| |[|q|]|out|key]; simpl in *; try done.
    + unfold onRequest.
      destruct (endsWith (pathname r) "/query"
                && bool_decide (method r = POST)) eqn:Hroute; simpl in Hno.
      * unfold submit, try_catch.
        destruct (json r) as [q|]; [|done]. by rewrite Hno.
      * destruct (endsWith (pathname r) "/status");
          [unfold statusOf
          |destruct (endsWith (pathname r) "/results");
           [unfold results|done]];
          unfold mbind, ES_bind, readState;
          (destruct (this_state a); [|done]); by repeat case_match.
    + unfold onConnect, mbind, ES_bind, readState.
      destruct (this_state a); [|done]. by repeat case_match.
    + by destruct (Halarm out).
    + by destruct (Hexp key).
  - intros Hp Hm. unfold onRequest. rewrite Hp, Hm. simpl.
    unfold submit, try_catch. split.
    + by intros ->.
    + by intros q -> ->.
Qed.

(** ** Every update is stamped *)

Lemma stamped_submitted (query : Field) (t : N) :
  stamped (submitted query t).
Proof. split; [by exists Analyzing|by eexists]. Qed.

Lemma stamped_cached (query : Field)
    (works : list AnnotatedArtwork) (t : N) :
  stamped (cached query works t).
Proof. split; [by exists Complete|by eexists]. Qed.

Lemma stamped_withStage (s : ArtAgentState) (stage : Stage) (t : N) :
  stage ≠ Idle → stamped (withStage s stage t).
Proof. intros H. split; [by exists stage|by eexists]. Qed.

Lemma stamped_withError (s : ArtAgentState) (message : string) (t : N) :
  stamped (withError s message t).
Proof. split; [by exists Error|by eexists]. Qed.

Lemma stamped_withWorks (s : ArtAgentState)
    (works : list AnnotatedArtwork) (t : N) :
  stamped (withWorks s works t).
Proof. split; [by exists Complete|by eexists]. Qed.

Lemma handle_stamped (a : Agent) (e : Event) :
  Forall stamped (stateUpdates a) →
  Forall stamped (stateUpdates (handle clock randomUUID a e)).
Proof.
  intros Hlog.
  destruct (handle_Handled e a)
    as [_ -> _ _|q t _ _ -> _ _|q t kv entry _ _ _ _ -> _ _
        |out q rest -> Hsched ->].
  - done.
  - apply Forall_app. split; [done|].
    constructor; [apply stamped_submitted|constructor].
  - apply Forall_app. split; [done|].
    constructor; [apply stamped_cached|constructor].
  - destruct (processArtQuery_run out q (unscheduled rest a))
      as (t1 & t2 & t3 & t4 & H).
    simpl in H. destruct H as [_ H].
    destruct (researched clock out q (S (clockReads a)));
      [destruct (fetchFailure out _)|];
      destruct H as (-> & _);
      (apply Forall_app; split; [done|]);
      repeat first [ apply Forall_cons; split | apply Forall_nil
                   | apply stamped_withError | apply stamped_withWorks
                   | by apply stamped_withStage | exact I ].
Qed.

(** X2.  In every session, each state handed to [onStateUpdate] carries
    a stage other than ['idle'] and the time of the update, and
    [this.state] is the last of them, [undefined] as long as nothing was
    written.  So the default ['idle'] of the status answer is never
    used: the status request throws before the first update, and answers
    with a stage other than ['idle'] after it. *)
Theorem idle_never_answered (cache : option (gmap string CacheEntry))
    (events : list Event) :
  let a := session clock randomUUID (fresh cache) events in
  Forall stamped (stateUpdates a)
  ∧ this_state a = last (stateUpdates a)
  ∧ match (statusOf a).2 with
    | inl e => e = noState ∧ stateUpdates a = []
    | inr r =>
        status r = 200
        ∧ ∃ stage, body_state (body r) = Some stage ∧ stage ≠ Idle
    end.
Proof.
  cbn zeta.
  assert (Forall stamped
            (stateUpdates (session clock randomUUID (fresh cache) events)))
    as Hstamped.
  { apply (session_ind (λ a, Forall stamped (stateUpdates a))).
    - constructor.
    - intros a e. apply handle_stamped. }
  pose proof (session_current cache events) as Hlast.
  split_and!; [done..|].
  unfold statusOf, mbind, ES_bind, readState. rewrite Hlast.
  destruct (stateUpdates (session clock randomUUID (fresh cache) events))
    as [|s l _] using rev_ind; [done|].
  rewrite last_snoc. simpl. split; [done|].
  apply Forall_app in Hstamped as [_ Hs].
  apply Forall_singleton in Hs as [(stage & Hs & Hne) _].
  exists stage. unfold stageOrIdle. by rewrite Hs.
Qed.

(** ** Submissions over HTTP that are not answered from the store *)




(** ** What the store holds *)

Lemma handle_storeWritten (a : Agent) (e : Event) :
  storeWritten (ART_CACHE a) →
  storeWritten (ART_CACHE (handle clock randomUUID a e)).
Proof.
  intros Hstore. unfold storeWritten.
  destruct (handle_Handled e a)
    as [_ _ _ Hkv|q t _ _ _ _ ->|q t kv entry _ _ _ _ _ _ ->
        |out q rest -> Hsched ->]; try done.
  - intros kv key entry. destruct Hkv as [->|[key' ->]]; [by apply Hstore|].
    destruct (ART_CACHE a) as [kv'|] eqn:E; [|done]. simpl.
    intros [= <-] [_ Hentry]%lookup_delete_Some. by eapply Hstore.
  - destruct (processArtQuery_run out q (unscheduled rest a))
      as (t1 & t2 & t3 & t4 & H).
    simpl in H. destruct H as [_ H].
    destruct (researched clock out q (S (clockReads a)))
      as [candidates|] eqn:E; [destruct (fetchFailure out _)|];
      destruct H as (_ & _ & ->); try done.
    unfold stored. intros kv key entry.
    destruct (cache_put out); [by apply Hstore|].
    case_bool_decide; [|by apply Hstore].
    destruct (ART_CACHE a) as [kv'|] eqn:Ekv; [|done]. simpl.
    intros [= <-] [[<- <-]|[_ Hentry]]%lookup_insert_Some;
      [|by eapply Hstore].
    split_and!; [by exists q| |done].
    apply annotated_nonempty, resolved_nonempty.
    by eapply researched_nonempty.
Qed.

(** X5.  Whatever a session does, a store that started empty (or was
    written by this agent before) only holds entries under the key of a
    query, with works that are not empty and a time to live of thirty days
    (2592000 seconds). *)
Theorem store_entries_written (cache : option (gmap string CacheEntry))
    (events : list Event) :
  storeWritten cache →
  storeWritten (ART_CACHE (session clock randomUUID (fresh cache) events)).
Proof.
  intros Hcache.
  apply (session_ind (λ a, storeWritten (ART_CACHE a))); [done|].
  intros a e. apply handle_storeWritten.
Qed.

(** ** The store is an extra *)

Lemma resolved_withPut (put : option Thrown) (out : Outside)
    (artworks : list ArtworkInfo) (index : nat) :
  resolved (withPut put out) artworks index = resolved out artworks index.
Proof.
  revert index. induction artworks as [|artwork rest IH]; intros; [done|].
  simpl. by rewrite IH.
Qed.

Lemma annotated_withPut (put : option Thrown) (out : Outside)
    (narrative : Field) (artworks : list ArtworkWithImage)
    (index : nat) :
  annotated (withPut put out) narrative artworks index
  = annotated out narrative artworks index.
Proof.
  revert index. induction artworks as [|artwork rest IH]; intros; [done|].
  simpl. by rewrite IH.
Qed.

(** X6.  What a run tells through the state (the stages it writes, and the
    query, works, stage and error it leaves) is the same whether the store
    is bound or not, whatever it holds, and whether [put] resolves or
    rejects. *)
Theorem run_regardless_of_store (out : Outside) (query : Field)
    (a : Agent) (cache : option (gmap string CacheEntry))
    (put : option Thrown) :
  let a1 := (processArtQuery clock out query a).1 in
  let a2 := (processArtQuery clock (withPut put out) query
               (withStore cache a)).1 in
  stagesWritten (withStore cache a) a2 = stagesWritten a a1
  ∧ told (state a2) = told (state a1).
Proof.
  cbn zeta.
  destruct (processArtQuery_run out query a) as (t1 & t2 & t3 & t4 & H).
  destruct (processArtQuery_run (withPut put out) query (withStore cache a))
    as (u1 & u2 & u3 & u4 & H').
  cbn zeta in H, H'. destruct H as [_ H]. destruct H' as [_ H'].
  change (researched clock (withPut put out) query
            (S (clockReads (withStore cache a))))
    with (researched clock out query (S (clockReads a))) in H'.
  unfold stagesWritten.
  destruct (researched clock out query (S (clockReads a)))
    as [candidates|].
  - change (fetchFailure (withPut put out) candidates)
      with (fetchFailure out candidates) in H'.
    destruct (fetchFailure out candidates);
      destruct H as (Hl & -> & _); destruct H' as (Hl' & -> & _);
      rewrite (written_app a _ _ Hl),
        (written_app (withStore cache a) _ _ Hl');
      try done.
    by rewrite resolved_withPut, annotated_withPut.
  - destruct H as (Hl & -> & _); destruct H' as (Hl' & -> & _).
    by rewrite (written_app a _ _ Hl),
         (written_app (withStore cache a) _ _ Hl').
Qed.

(** ** What the stages return *)











(** ** What a run leaves *)


(** X11.  A run never touches the query of the state, the schedule or the
    entries of other queries: every state it writes keeps the
    [currentQuery] it found, which need not be the query it runs for,
    while the one entry it may write goes under the key of its own query,
    and only when the store is bound. *)
Theorem run_frame (out : Outside) (query : Field) (a : Agent) :
  let a' := (processArtQuery clock out query a).1 in
  Forall (λ s, currentQuery s = currentQuery (state a)
               ∧ searchResults s = searchResults (state a))
    (written a a')
  ∧ schedules a' = schedules a
  ∧ (ART_CACHE a = None → ART_CACHE a' = None)
  ∧ (∀ key, key ≠ cacheKey query →
       ART_CACHE a' ≫= lookup key = ART_CACHE a ≫= lookup key).
Proof.
  destruct (processArtQuery_run out query a) as (t1 & t2 & t3 & t4 & H).
  simpl in *. destruct H as [Hsched H].
  destruct (researched clock out query (S (clockReads a)))
    as [candidates|]; [destruct (fetchFailure out _)|];
    destruct H as (Hl & _ & ->); rewrite (written_app _ _ _ Hl);
    (split_and!; [by repeat constructor|done|try done..]).
  - unfold stored. intros ->. by repeat case_match.
  - intros key Hkey. unfold stored.
    destruct (cache_put out); [done|]. case_bool_decide; [|done].
    destruct (ART_CACHE a) as [kv|]; [|done]. simpl.
    by rewrite lookup_insert_ne.
Qed.

(** ** The push channel *)

Lemma taken_all (throws : Notification → option Thrown)
    (messages : list Notification) :
  (∀ m, m ∈ messages → throws m = None) →
  taken throws messages = (messages, None).
Proof.
  induction messages as [|m rest IH]; intros H; [done|]. simpl.
  rewrite (H m) by left. rewrite IH; [done|].
  intros m' Hm'. apply H. by right.
Qed.

(** What the body of the loop does for one socket. *)
Lemma onStateUpdate_body (throws : nat → Notification → option Thrown)
    (s : ArtAgentState) (c : nat) (sent : list (nat * Notification)) :
  (send throws c
     (StateNotification (processingStage s) (lastUpdated s) (error s));;
   match processingStage s, selectedWorks s with
   | Some Complete, Some works =>
       send throws c (ResultsNotification (currentQuery s) works)
   | _, _ => mret ()
   end) sent
  = (sent ++ ((c,.) <$> (taken (throws c) (notes s)).1),
     match (taken (throws c) (notes s)).2 with
     | Some e => inl e
     | None => inr ()
     end).
Proof.
  unfold notes, mbind, ES_bind, send, push, throw. cbn [taken].
  destruct (throws c (StateNotification _ _ _));
    [cbn; by rewrite app_nil_r|].
  destruct (processingStage s) as [[]|], (selectedWorks s) as [ws|];
    try done.
  cbn [taken].
  destruct (throws c (ResultsNotification _ _)); [done|].
  cbn. by rewrite <- app_assoc.
Qed.

(** The loop over sockets none of whose [send] throws. *)
Lemma onStateUpdate_obliging (throws : nat → Notification → option Thrown)
    (s : ArtAgentState) (connections : list nat) (index : nat)
    (sent : list (nat * Notification)) :
  (∀ c n, c ∈ connections → n ∈ notes s → throws c n = None) →
  for_of (λ _ c,
    send throws c
      (StateNotification (processingStage s) (lastUpdated s) (error s));;
    match processingStage s, selectedWorks s with
    | Some Complete, Some works =>
        send throws c (ResultsNotification (currentQuery s) works)
    | _, _ => mret ()
    end) connections index sent
  = (sent ++ (connections ≫= λ c, (c,.) <$> notes s), inr ()).
Proof.
  revert index sent.
  induction connections as [|c rest IH]; intros index sent H.
  - simpl. by rewrite app_nil_r.
  - cbn [for_of]. unfold mbind at 1, ES_bind at 1.
    rewrite onStateUpdate_body, taken_all
      by (intros m Hm; apply H; [by left|done]).
    cbn [fst snd].
    rewrite IH by (intros c' n Hc' Hn; apply H; [by right|done]).
    by rewrite bind_cons, <- app_assoc.
Qed.

(** The loop up to the first socket a [send] to which throws. *)
Lemma onStateUpdate_stops (throws : nat → Notification → option Thrown)
    (s : ArtAgentState) (before after : list nat) (c : nat) (e : Thrown)
    (index : nat) (sent : list (nat * Notification)) :
  (∀ c' n, c' ∈ before → n ∈ notes s → throws c' n = None) →
  (taken (throws c) (notes s)).2 = Some e →
  for_of (λ _ c,
    send throws c
      (StateNotification (processingStage s) (lastUpdated s) (error s));;
    match processingStage s, selectedWorks s with
    | Some Complete, Some works =>
        send throws c (ResultsNotification (currentQuery s) works)
    | _, _ => mret ()
    end) (before ++ c :: after) index sent
  = (sent ++ (before ≫= λ c', (c',.) <$> notes s)
          ++ ((c,.) <$> (taken (throws c) (notes s)).1),
     inl e).
Proof.
  revert index sent.
  induction before as [|c' rest IH]; intros index sent H He.
  - cbn [app for_of]. unfold mbind at 1, ES_bind at 1.
    by rewrite onStateUpdate_body, He.
  - cbn [app for_of]. unfold mbind at 1, ES_bind at 1.
    rewrite onStateUpdate_body, taken_all
      by (intros m Hm; apply H; [by left|done]).
    cbn [fst snd].
    rewrite IH; [|intros c'' n Hc'' Hn; apply H; [by right|done]|done].
    by rewrite bind_cons, <- !app_assoc.
Qed.

Lemma inbox_app (c : nat) (l l' : list (nat * Notification)) :
  inbox c (l ++ l') = inbox c l ++ inbox c l'.
Proof. unfold inbox. by rewrite filter_app, fmap_app. Qed.

Lemma inbox_cons (c c' : nat) (n : Notification)
    (l : list (nat * Notification)) :
  inbox c ((c', n) :: l)
  = (if bool_decide (c' = c) then [n] else []) ++ inbox c l.
Proof.
  unfold inbox. destruct (decide (c' = c)) as [Hc|Hc].
  - rewrite bool_decide_eq_true_2 by done. by rewrite filter_cons_True.
  - rewrite bool_decide_eq_false_2 by done. by rewrite filter_cons_False.
Qed.

Lemma inbox_own (c : nat) (l : list Notification) :
  inbox c ((c,.) <$> l) = l.
Proof.
  induction l as [|n l IH]; [done|].
  rewrite fmap_cons, inbox_cons, IH. by rewrite bool_decide_eq_true_2.
Qed.

Lemma inbox_other (c c' : nat) (l : list Notification) :
  c' ≠ c → inbox c ((c',.) <$> l) = [].
Proof.
  intros Hc. induction l as [|n l IH]; [done|].
  rewrite fmap_cons, inbox_cons, IH. by rewrite bool_decide_eq_false_2.
Qed.

(** What one socket finds among messages sent to each socket of a list
    in turn. *)
Lemma inbox_each (connections : list nat) (c : nat)
    (messages : list Notification) :
  NoDup connections →
  inbox c (connections ≫= λ c', (c',.) <$> messages)
  = if bool_decide (c ∈ connections) then messages else [].
Proof.
  induction 1 as [|c' rest Hnotin Hnodup IH].
  - by rewrite bool_decide_eq_false_2 by apply not_elem_of_nil.
  - rewrite bind_cons, inbox_app, IH.
    destruct (decide (c' = c)) as [->|Hne].
    + rewrite inbox_own, (bool_decide_eq_true_2 (c ∈ c :: rest)) by left.
      rewrite bool_decide_eq_false_2 by done. by rewrite app_nil_r.
    + rewrite inbox_other by done.
      destruct (decide (c ∈ rest)) as [Hin|Hin].
      * rewrite !bool_decide_eq_true_2; [done|by right|done].
      * rewrite !bool_decide_eq_false_2; [done| |done].
        intros [->|?]%elem_of_cons; done.
Qed.

Lemma inbox_broadcast (throws : nat → Notification → option Thrown)
    (connections : list nat) (c : nat) (a a' : Agent) :
  NoDup connections → obliging throws connections →
  inbox c (broadcast throws connections a a')
  = if bool_decide (c ∈ connections) then written a a' ≫= notes else [].
Proof.
  intros Hnodup Hsends. unfold broadcast.
  induction (written a a') as [|s l IH].
  - by destruct (bool_decide _).
  - rewrite !bind_cons, inbox_app, IH. unfold onStateUpdate.
    rewrite onStateUpdate_obliging by (intros; by apply Hsends).
    cbn [fst]. rewrite app_nil_l, inbox_each by done.
    by destruct (bool_decide _).
Qed.

(** X12.  One call of [onStateUpdate] over distinct sockets.  When no
    [send] throws, the call returns and every socket has been sent the
    state envelope and, for a state in stage [Complete] that holds works,
    the results envelope right after it.  When the first [send] that
    throws is one to the socket [c], the call throws what that [send]
    threw: the sockets before [c] have been sent their messages, [c] the
    messages before the one that threw, and the sockets after [c]
    nothing. *)
Theorem broadcast_inbox (throws : nat → Notification → option Thrown)
    (connections : list nat) (s : ArtAgentState) :
  NoDup connections →
  let call := onStateUpdate throws connections s in
  ((∀ c n, c ∈ connections → n ∈ notes s → throws c n = None) →
   call.2 = inr ()
   ∧ ∀ c, inbox c call.1
          = if bool_decide (c ∈ connections) then notes s else [])
  ∧ (∀ before c after e,
       connections = before ++ c :: after →
       (∀ c' n, c' ∈ before → n ∈ notes s → throws c' n = None) →
       (taken (throws c) (notes s)).2 = Some e →
       call.2 = inl e
       ∧ (∀ c', c' ∈ before → inbox c' call.1 = notes s)
       ∧ inbox c call.1 = (taken (throws c) (notes s)).1
       ∧ ∀ c', c' ∈ after → inbox c' call.1 = []).
Proof.
  intros Hnodup. cbn zeta. unfold onStateUpdate. split.
  - intros Hsends. rewrite onStateUpdate_obliging by done.
    split; [done|]. intros c. cbn [fst]. by rewrite app_nil_l, inbox_each.
  - intros before c after e -> Hsends He.
    rewrite (onStateUpdate_stops _ _ _ _ _ e) by done.
    cbn [fst snd]. rewrite app_nil_l.
    apply NoDup_app in Hnodup as (Hbefore & Hapart & Hrest).
    apply NoDup_cons in Hrest as [Hc Hafter].
    split_and!; [done|..].
    + intros c' Hc'. rewrite inbox_app, inbox_each by done.
      rewrite bool_decide_eq_true_2 by done.
      rewrite inbox_other, app_nil_r; [done|].
      intros ->. apply (Hapart c' Hc'). by left.
    + rewrite inbox_app, inbox_each, inbox_own by done.
      rewrite bool_decide_eq_false_2; [done|].
      intros Hin. apply (Hapart c Hin). by left.
    + intros c' Hc'. rewrite inbox_app, inbox_each by done.
      rewrite bool_decide_eq_false_2.
      * rewrite inbox_other; [done|]. by intros ->.
      * intros Hin. apply (Hapart c' Hin). by right.
Qed.

(** X13.  A page that is connected while a run takes place, no [send] to
    a connected socket throwing, ends with the stage the run leaves.
    When the run completes the page holds the works of the state, which
    are not empty, shows the grid and is no longer loading.  When the run
    fails the page keeps the results and the loading flag it had: no
    message of [onStateUpdate] is of type ['error'], so a search button
    that was disabled stays disabled.  An error the state holds at the
    end, were it carried over from an earlier run into a completed one,
    is the error the page shows. *)
Theorem page_follows_run (out : Outside) (query : Field)
    (a : Agent) (app : App.State)
    (throws : nat → Notification → option Thrown)
    (connections : list nat) (c : nat) :
  NoDup connections → obliging throws connections → c ∈ connections →
  let a' := (processArtQuery clock out query a).1 in
  let app' :=
    deliver
      (ofNotification <$> inbox c (broadcast throws connections a a'))
      app in
  App.status app' = processingStage (state a')
  ∧ (truthy (error (state a')) = true →
     App.error app' = error (state a'))
  ∧ match processingStage (state a') with
    | Some Complete =>
        App.results app' = selectedWorks (state a')
        ∧ App.showsGrid app' = true
        ∧ App.isLoading app' = false
    | stage =>
        stage = Some Error
        ∧ App.results app' = App.results app
        ∧ App.isLoading app' = App.isLoading app
    end.
Proof.
  intros Hnodup Hsends Hin. cbn zeta.
  rewrite inbox_broadcast, bool_decide_eq_true_2 by done.
  destruct (processArtQuery_run out query a) as (t1 & t2 & t3 & t4 & H).
  cbn zeta in H. destruct H as [_ H].
  destruct (researched clock out query (S (clockReads a)))
    as [candidates|] eqn:E; [destruct (fetchFailure out _) as [e|]|];
    destruct H as (Hl & -> & _); rewrite (written_app _ _ _ Hl); simpl.
  - unfold App.onmessage. simpl.
    destruct (truthy (error (state a))), (bool_decide (messageOf e ≠ ""));
      done.
  - pose proof (researched_nonempty _ _ _ _ E) as Hne.
    apply (resolved_nonempty out _ 0) in Hne.
    apply (annotated_nonempty out query _ 0) in Hne.
    unfold App.onmessage. simpl.
    destruct (annotated out query (resolved out candidates 0) 0); [done|].
    destruct (truthy (error (state a))) eqn:Ht; done.
  - unfold App.onmessage. simpl.
    by destruct (truthy (error (state a))).
Qed.

(** ** Polling *)

Lemma state_defined (a : Agent) (s : ArtAgentState) :
  this_state a = Some s → state a = s.
Proof. unfold state. by intros ->. Qed.

Lemma answer_status (a : Agent) :
  is_Some (this_state a) →
  answer clock randomUUID statusRequest a
  = inr (ok (StatusBody (stageOrIdle (state a)) (lastUpdated (state a))
               (currentQuery (state a)) (error (state a)))).
Proof.
  intros [s Hs]. rewrite (state_defined _ _ Hs). unfold answer.
  change (onRequest clock randomUUID statusRequest None) with statusOf.
  unfold statusOf, mbind, ES_bind, readState. by rewrite Hs.
Qed.

Lemma answer_results (a : Agent) :
  is_Some (this_state a) →
  answer clock randomUUID resultsRequest a
  = inr (ok (if bool_decide (processingStage (state a) ≠ Some Complete)
             then NotReadyBody "Results not ready yet"
                    (stageOrIdle (state a)) (error (state a))
             else ResultsBody (currentQuery (state a))
                    (selectedWorks (state a)))).
Proof.
  intros [s Hs]. rewrite (state_defined _ _ Hs). unfold answer.
  change (onRequest clock randomUUID resultsRequest None) with results.
  unfold results, mbind, ES_bind, readState. rewrite Hs.
  by destruct (bool_decide _).
Qed.

(** What a round of polling makes of the two answers. *)
Lemma checkStatus_round (a a2 : Agent) (app : App.State) :
  is_Some (this_state a) → is_Some (this_state a2) →
  let round :=
    App.checkStatus (answer clock randomUUID statusRequest a)
      (answer clock randomUUID resultsRequest a2) app in
  App.status round.1 = Some (stageOrIdle (state a))
  ∧ (round.2 = true ↔ stageOrIdle (state a) ≠ Complete)
  ∧ (stageOrIdle (state a) ≠ Complete →
     App.results round.1 = App.results app
     ∧ App.isLoading round.1 = App.isLoading app)
  ∧ (stageOrIdle (state a) = Complete →
     App.isLoading round.1 = false
     ∧ App.results round.1
       = if bool_decide (processingStage (state a2) = Some Complete)
         then selectedWorks (state a2) else None).
Proof.
  intros Ha Ha2. rewrite answer_status, answer_results by done.
  unfold App.checkStatus, ok. cbn [status body response_ok negb body_state
    body_error].
  change (bool_decide (200 ≤ 200 ≤ 299)) with true. cbn [negb].
  destruct (truthy (error (state a)));
    (destruct (stageOrIdle (state a)) eqn:Hs;
     [rewrite bool_decide_eq_false_2 by done;
      split_and!; [done|split; done|done|done]..
     |rewrite bool_decide_eq_true_2 by done|
      rewrite bool_decide_eq_false_2 by done;
      split_and!; [done|split; done|done|done]]).
  all: destruct (decide (processingStage (state a2) = Some Complete))
         as [Hc|Hc].
  all: rewrite ?(bool_decide_eq_true_2 _ Hc),
               ?(bool_decide_eq_false_2 _ Hc).
  all: try rewrite (bool_decide_eq_false_2 (_ ≠ _)) by (by intros []).
  all: try rewrite (bool_decide_eq_true_2 (_ ≠ _)) by done.
  all: by split_and!.
Qed.

(** X14.  One round of polling against an agent whose state has been
    written, as it is once a query of the page was accepted: the page
    takes the stage the agent is in.  In every stage but [Complete], also
    in stage [Error], the round leaves the results and the loading flag
    alone and sets up the next round, so that polling goes on for as long
    as the agent stays in stage [Error].  In stage [Complete] the round
    is the last one and ends the loading; the results are the works the
    agent holds when the second request arrives, and nothing when the
    agent has left [Complete] by then. *)
Theorem polling_round (a a2 : Agent) (app : App.State) :
  is_Some (this_state a) → is_Some (this_state a2) →
  let round :=
    App.checkStatus (answer clock randomUUID statusRequest a)
      (answer clock randomUUID resultsRequest a2) app in
  App.status round.1 = Some (stageOrIdle (state a))
  ∧ (round.2 = true ↔ stageOrIdle (state a) ≠ Complete)
  ∧ (stageOrIdle (state a) ≠ Complete →
     App.results round.1 = App.results app
     ∧ App.isLoading round.1 = App.isLoading app)
  ∧ (stageOrIdle (state a) = Complete →
     App.isLoading round.1 = false
     ∧ App.results round.1
       = if bool_decide (processingStage (state a2) = Some Complete)
         then selectedWorks (state a2) else None).
Proof. apply checkStatus_round. Qed.

(** ** From the search form to the agent *)



(** Once written, [this.state] stays defined. *)
Lemma handle_defined (a : Agent) (e : Event) :
  is_Some (this_state a) →
  is_Some (this_state (handle clock randomUUID a e)).
Proof.
  intros Ha.
  destruct (handle_Handled e a)
    as [_ _ _ _ Hs|q t _ _ _ _ _ Hs|q t kv entry _ _ _ _ _ _ _ Hs
        |out q rest -> Hsched ->].
  - by rewrite Hs.
  - by rewrite Hs.
  - by rewrite Hs.
  - by rewrite processArtQuery_written.
Qed.

Lemma session_defined (a : Agent) (events : list Event) :
  is_Some (this_state a) →
  is_Some (this_state (session clock randomUUID a events)).
Proof.
  intros Ha. induction events as [|e events IH] using rev_ind; [done|].
  rewrite session_snoc. by apply handle_defined.
Qed.

(** X16.  The last round of polling an agent a session has led to, over
    a store no entry of which holds an empty list, whatever happens to
    the agent between the two requests of the round: the round is the
    last one exactly when the first request finds the stage [Complete];
    the page then shows the grid when the second request still finds
    [Complete], and the panel 'No artworks found' when the agent has left
    [Complete] in between. *)
Theorem poll_shows_grid (cache : option (gmap string CacheEntry))
    (events between : list Event) (app : App.State) :
  cacheSound cache →
  let a := session clock randomUUID (fresh cache) events in
  let a2 := session clock randomUUID (fresh cache) (events ++ between) in
  is_Some (this_state a) →
  let round :=
    App.checkStatus (answer clock randomUUID statusRequest a)
      (answer clock randomUUID resultsRequest a2) app in
  (round.2 = false ↔ processingStage (state a) = Some Complete)
  ∧ (round.2 = false →
     if bool_decide (processingStage (state a2) = Some Complete)
     then App.showsGrid round.1 = true
          ∧ App.showsNoArtworks round.1 = false
     else App.showsGrid round.1 = false
          ∧ App.showsNoArtworks round.1 = true).
Proof.
  intros Hsound. cbn zeta. intros Ha.
  destruct (session_holds (λ works, works ≠ []) cache (events ++ between))
    as [_ Hstate]; [done|exact Hsound|].
  set (a := session clock randomUUID (fresh cache) events) in *.
  set (a2 := session clock randomUUID (fresh cache) (events ++ between))
    in *.
  assert (is_Some (this_state a2)) as Ha2.
  { unfold a2, session. rewrite foldl_app. by apply session_defined. }
  destruct (checkStatus_round a a2 app Ha Ha2)
    as (Hstatus & Hagain & _ & Hlast).
  assert (stageOrIdle (state a) = Complete
          ↔ processingStage (state a) = Some Complete) as Hstage.
  { unfold stageOrIdle. destruct (processingStage (state a)) as [[]|];
      split; done. }
  assert (∀ b : bool, b = false ↔ ¬ b = true) as Hbool
    by (intros []; split; done).
  split.
  - rewrite Hbool, Hagain, <- Hstage.
    destruct (decide (stageOrIdle (state a) = Complete)) as [Hc|Hc];
      split; [done|by intros ? ?|intros Hn; by destruct Hn|done].
  - intros Hround. apply Hbool in Hround. rewrite Hagain in Hround.
    assert (stageOrIdle (state a) = Complete) as Hc
      by (by destruct (decide (stageOrIdle (state a) = Complete))).
    destruct (Hlast Hc) as [_ Hresults].
    unfold App.showsNoArtworks, App.showsGrid.
    rewrite Hresults, Hstatus, Hc.
    rewrite (bool_decide_eq_true_2 (Some Complete = Some Complete))
      by done.
    case_bool_decide as Hc2; [|done].
    destruct (Hstate Hc2) as (works & -> & Hne). by destruct works.
Qed.

(** ** A page that connects *)

(** X17.  A page that connects to an agent whose state has been written
    takes the stage of the agent and the error of the state when it
    holds one.  From an agent in stage [Complete] it takes the works and
    stops loading; from any other it keeps the results and the loading
    flag it had.  The agent is left as it was. *)
Theorem page_after_connect (a : Agent) (s : ArtAgentState)
    (app : App.State) :
  this_state a = Some s →
  ∃ envelopes,
    onConnect a = (a, inr envelopes)
    ∧ let app' := deliver (ofEnvelope <$> envelopes) app in
      App.status app' = Some (stageOrIdle s)
      ∧ (truthy (error s) = true → App.error app' = error s)
      ∧ match processingStage s, selectedWorks s with
        | Some Complete, Some works =>
            App.results app' = Some works ∧ App.isLoading app' = false
        | _, _ =>
            App.results app' = App.results app
            ∧ App.isLoading app' = App.isLoading app
        end.
Proof.
  intros Hs. unfold onConnect, mbind, ES_bind, readState. rewrite Hs.
  destruct (processingStage s) as [[]|], (selectedWorks s) as [ws|];
    (eexists; split; [reflexivity|]);
    cbn [fmap list_fmap deliver foldl ofEnvelope App.onmessage];
    destruct (truthy (error s)); by split_and!.
Qed.
End Runs.

(** * The properties on sample runs *)

Lemma research_ids_distinct_witness :
  ∃ candidates,
    (researchArtworks sampleClock sampleOut (Text "The Last Supper")
       sampleAgent).2 = inr candidates
    ∧ NoDup (id <$> candidates)
    ∧ id <$> candidates !! 2 = Some "artwork-1700000000003-2".
Proof.
  eexists. split; [reflexivity|]. split; [|reflexivity].
  exact (proj1 (research_ids_distinct sampleClock sampleOut
                  (Text "The Last Supper") sampleAgent _ eq_refl)).
Defined.






(** C4 on a run the code can meet: one candidate, its image found, the
    page then failing to close.  The pass pushes the artwork with its
    image, [page.close()] rejects, and the [catch] block pushes the
    artwork again with the placeholder: the run completes with two works
    for one candidate. *)
Theorem page_close_rejection_duplicates :
  let submitted :=
    session sampleClock sampleUUID sampleAgent
      [Http (samplePost "The Last Supper") None] in
  let a := handle sampleClock sampleUUID submitted
             (Alarm sampleCloseRejects) in
  ∃ candidates works,
    (researchArtworks sampleClock sampleCloseRejects
       (Text "The Last Supper") (unscheduled [] submitted)).2
    = inr candidates
    ∧ length candidates = 1
    ∧ processingStage (state a) = Some Complete
    ∧ selectedWorks (state a) = Some works
    ∧ length works = 2
    ∧ imageUrl ∘ withImage <$> works
      = ["https://images.example/supper.jpg";
         "https://placekitten.com/600/400?text=One"].
Proof. eexists _, _. vm_compute. by split_and!. Qed.





Lemma sampleCache_sound : cacheSound (Some ∅).
Proof. intros kv key entry [= <-] H. by rewrite lookup_empty in H. Defined.

Lemma sampleLog_lookup (i : nat) :
  is_Some (sampleLog !! i) →
  default emptyState (sampleLog !! i)
  ∈ stateUpdates
      (session sampleClock sampleUUID (fresh (Some ∅))
         [Http (samplePost "The Last Supper") None; Alarm sampleOut]).
Proof.
  intros [s Hs]. rewrite Hs. by apply (list_elem_of_lookup_2 _ i).
Defined.

Lemma results_of_session_witness :
  results sampleFetching
  = (sampleFetching,
     inr {| status := 200;
            body := NotReadyBody "Results not ready yet" Fetching None |})
  ∧ ∃ works, works ≠ []
      ∧ results sampleDone
        = (sampleDone,
           inr {| status := 200;
                  body := ResultsBody (Text "The Last Supper")
                            (Some works) |}).
Proof.
  split.
  - refine (proj1 (results_of_session sampleClock sampleUUID (Some ∅) _ _
                     sampleFetching sampleCache_sound
                     (sampleLog_lookup 2 _) eq_refl) _).
    + vm_compute. by eexists.
    + vm_compute. discriminate.
  - refine (proj2 (results_of_session sampleClock sampleUUID (Some ∅) _ _
                     sampleDone sampleCache_sound
                     (sampleLog_lookup 4 _) eq_refl) _).
    + vm_compute. by eexists.
    + vm_compute. reflexivity.
Defined.

(** C6 fails on the code: a [GET] of [.../results] that reaches an agent
    before any query was submitted finds [this.state] undefined, so that
    reading [this.state.processingStage] throws: the request is answered
    with no body of the handler at all, where the claim has the
    not-ready answer. *)
Theorem results_before_first_query :
  let a := fresh (Some ∅) in
  processingStage (state a) ≠ Some Complete
  ∧ stateUpdates a = []
  ∧ onRequest sampleClock sampleUUID resultsRequest None a
    = (a, inl (JsError
         "Cannot read properties of undefined (reading 'processingStage')")).
Proof. vm_compute. by split_and!. Qed.



Lemma connect_sends_snapshot_witness :
  (onConnect sampleFetching).2
  = inr [StateEnvelope Fetching (Text "The Last Supper") None]
  ∧ ∃ works,
      (onConnect sampleDone).2
      = inr [StateEnvelope Complete (Text "The Last Supper") None;
             ResultsEnvelope (Text "The Last Supper") works].
Proof.
  split.
  - destruct (connect_sends_snapshot sampleClock sampleUUID (Some ∅) _ _
                sampleFetching (sampleLog_lookup 2 ltac:(vm_compute; eauto))
                eq_refl)
      as (rest & Hsend & _ & Hrunning).
    rewrite Hsend, (Hrunning ltac:(vm_compute; discriminate)).
    reflexivity.
  - destruct (connect_sends_snapshot sampleClock sampleUUID (Some ∅) _ _
                sampleDone (sampleLog_lookup 4 ltac:(vm_compute; eauto))
                eq_refl)
      as (rest & Hsend & Hcomplete & _).
    destruct (Hcomplete ltac:(vm_compute; reflexivity))
      as (works & Hworks & ->).
    exists works. rewrite Hsend. vm_compute. reflexivity.
Defined.

(** C9 fails on the code: a socket that connects before any query was
    submitted finds [this.state] undefined; [onConnect] throws while it
    builds the first envelope, and the socket is sent nothing, where the
    claim has a state message with the stage ['idle']. *)
Theorem connect_before_first_query :
  let a := fresh (Some ∅) in
  stateUpdates a = []
  ∧ onConnect a
    = (a, inl (JsError
         "Cannot read properties of undefined (reading 'processingStage')"))
  ∧ handle sampleClock sampleUUID a Connects = a.
Proof. vm_compute. by split_and!. Qed.

(** C2 fails on the code: the research yields two candidates, the title
    of the first ending in a surrogate without its partner, and the page
    for the first cannot be opened.  The [catch] block of its pass calls
    [encodeURIComponent] on the title, which throws: the artwork is not
    pushed, the loop ends before the second artwork, whose image the
    browser would have found, and the run ends in [Error]. *)
Theorem unencodable_title_aborts_images :
  let submitted :=
    session sampleClock sampleUUID sampleAgent
      [Http (samplePost "The Pieta") None] in
  let a := handle sampleClock sampleUUID submitted (Alarm sampleBroken) in
  (researchArtworks sampleClock sampleBroken (Text "The Pieta")
     (unscheduled [] submitted)).2 = inr [sampleFirst; sampleSecond]
  ∧ noImage (pageRun sampleBroken 0 sampleFirst) = true
  ∧ for_of (imagePass sampleBroken) [sampleFirst; sampleSecond] 0 []
    = ([], inl (JsError "URI malformed"))
  ∧ for_of (imagePass sampleBroken) [sampleSecond] 1 []
    = ([{| info := sampleSecond;
           imageUrl := "https://images.example/supper.jpg" |}], inr ())
  ∧ processingStage (state a) = Some Error
  ∧ error (state a) = Some "URI malformed"
  ∧ selectedWorks (state a) = None.
Proof. vm_compute. by split_and!. Qed.

(** * Further properties on sample runs *)

Lemma silent_events_witness :
  handle sampleClock sampleUUID sampleCompleted (Http statusRequest None)
  = sampleCompleted
  ∧ onRequest sampleClock sampleUUID (samplePost "") None sampleCompleted
    = (sampleCompleted,
       inr {| status := 400; body := ErrorBody "No query provided" |}).
Proof.
  destruct (silent_events sampleClock sampleUUID (Http statusRequest None)
              sampleCompleted (samplePost "") None) as [Hquiet Hpost].
  split.
  - apply Hquiet; [reflexivity|discriminate..].
  - destruct (Hpost eq_refl eq_refl) as [_ Hempty].
    exact (Hempty (Text "") eq_refl eq_refl).
Defined.



Lemma sampleCache_written : storeWritten (Some ∅).
Proof. intros kv key entry [= <-] H. by rewrite lookup_empty in H. Defined.

Lemma store_entries_written_witness :
  storeWritten (Some ∅)
  ∧ storeWritten
      (ART_CACHE
         (session sampleClock sampleUUID (fresh (Some ∅))
            [Http (samplePost "The Last Supper") None; Alarm sampleOut;
             Expires "query:The Flood"])).
Proof.
  split; [exact sampleCache_written|].
  exact (store_entries_written sampleClock sampleUUID (Some ∅) _
           sampleCache_written).
Defined.


Lemma run_frame_witness :
  let a := fresh (Some {[cacheKey (Text "The Flood") := sampleEntry]}) in
  let a' := (processArtQuery sampleClock sampleOut (Text "The Last Supper")
               a).1 in
  ART_CACHE a' ≫= lookup "query:The Flood" = Some sampleEntry.
Proof.
  intros a a'.
  destruct (run_frame sampleClock sampleOut (Text "The Last Supper") a)
    as (_ & _ & _ & Hkeys).
  exact (eq_trans (Hkeys "query:The Flood" ltac:(discriminate))
           (lookup_singleton_eq (M := gmap string) _ _)).
Defined.

Lemma broadcast_inbox_witness :
  let s := submitted (Text "The Last Supper") 1700000000000 in
  let call := onStateUpdate sampleClosing [1; 2; 3] s in
  call.2 = inl (JsError "WebSocket is closed")
  ∧ inbox 1 call.1
    = [StateNotification (Some Analyzing) (Some 1700000000000%N) None]
  ∧ inbox 2 call.1 = []
  ∧ inbox 3 call.1 = [].
Proof.
  intros s call.
  destruct (broadcast_inbox sampleClosing [1; 2; 3] s ltac:(compute_done))
    as [_ Hstops].
  destruct (Hstops [1] 2 [3] (JsError "WebSocket is closed") eq_refl)
    as (Hthrows & Hbefore & Hself & Hafter).
  - intros c' n Hc' _. apply list_elem_of_singleton in Hc'. by rewrite Hc'.
  - reflexivity.
  - split; [exact Hthrows|]. split.
    + apply Hbefore. by apply list_elem_of_singleton.
    + split; [exact Hself|]. apply Hafter. by apply list_elem_of_singleton.
Defined.

Lemma sampleSends_obliging (connections : list nat) :
  obliging sampleSends connections.
Proof. by intros c n _. Defined.

Lemma page_follows_run_witness :
  let searching := (App.handleSearch true sampleApp).1 in
  let shown a' :=
    deliver
      (ofNotification
         <$> inbox 1 (broadcast sampleSends [1; 2] sampleAgent a'))
      searching in
  (App.status (shown sampleCompleted) = Some Complete
   ∧ App.showsGrid (shown sampleCompleted) = true
   ∧ App.isLoading (shown sampleCompleted) = false)
  ∧ App.status (shown sampleFailed) = Some Error
  ∧ App.isLoading (shown sampleFailed) = true.
Proof.
  intros searching shown.
  destruct (page_follows_run sampleClock sampleOut (Text "The Last Supper")
              sampleAgent searching sampleSends [1; 2] 1)
    as (Hs & _ & H);
    [compute_done|apply sampleSends_obliging|compute_done|].
  destruct (page_follows_run sampleClock sampleProse
              (Text "The Last Supper") sampleAgent searching sampleSends
              [1; 2] 1)
    as (Hs' & _ & H');
    [compute_done|apply sampleSends_obliging|compute_done|].
  change (processingStage (state (processArtQuery sampleClock sampleOut
            (Text "The Last Supper") sampleAgent).1))
    with (Some Complete) in *.
  change (processingStage (state (processArtQuery sampleClock sampleProse
            (Text "The Last Supper") sampleAgent).1))
    with (Some Error) in *.
  destruct H as (_ & Hgrid & Hloading). destruct H' as (_ & _ & Hloading').
  split; [split; [exact Hs|split; [exact Hgrid|exact Hloading]]|].
  split; [exact Hs'|exact Hloading'].
Defined.

Lemma sampleFailed_defined : is_Some (this_state sampleFailed).
Proof. vm_compute. by eexists. Defined.

Lemma sampleCompleted_defined : is_Some (this_state sampleCompleted).
Proof. vm_compute. by eexists. Defined.

Lemma polling_round_witness :
  let searching := (App.handleSearch false sampleApp).1 in
  let round a :=
    App.checkStatus (answer sampleClock sampleUUID statusRequest a)
      (answer sampleClock sampleUUID resultsRequest a) searching in
  ((round sampleFailed).2 = true
   ∧ App.isLoading (round sampleFailed).1 = true)
  ∧ (round sampleCompleted).2 = false
  ∧ App.isLoading (round sampleCompleted).1 = false.
Proof.
  intros searching round.
  destruct (polling_round sampleClock sampleUUID sampleFailed sampleFailed
              searching sampleFailed_defined sampleFailed_defined)
    as (_ & Hagain & Hkeeps & _).
  destruct (polling_round sampleClock sampleUUID sampleCompleted
              sampleCompleted searching sampleCompleted_defined
              sampleCompleted_defined) as (_ & Hstops & _ & Hends).
  assert (stageOrIdle (state sampleFailed) ≠ Complete) as Hfailed
    by (vm_compute; discriminate).
  assert (stageOrIdle (state sampleCompleted) = Complete) as Hcompleted
    by (vm_compute; reflexivity).
  split; [split; [exact (proj2 Hagain Hfailed)
                 |exact (proj2 (Hkeeps Hfailed))]|].
  split; [|exact (proj1 (Hends Hcompleted))].
  destruct ((round sampleCompleted).2) eqn:E; [|reflexivity].
  destruct (proj1 Hstops E Hcompleted).
Defined.

Lemma poll_shows_grid_witness :
  let events :=
    [Http (samplePost "The Last Supper") None; Alarm sampleOut] in
  let round between :=
    App.checkStatus
      (answer sampleClock sampleUUID statusRequest
         (session sampleClock sampleUUID (fresh (Some ∅)) events))
      (answer sampleClock sampleUUID resultsRequest
         (session sampleClock sampleUUID (fresh (Some ∅))
            (events ++ between)))
      (App.handleSearch false sampleApp).1 in
  (App.showsGrid (round []).1 = true
   ∧ App.showsNoArtworks (round []).1 = false)
  ∧ App.showsGrid (round [Socket (QueryMessage (Text "The Flood"))]).1
    = false
  ∧ App.showsNoArtworks
      (round [Socket (QueryMessage (Text "The Flood"))]).1 = true.
Proof.
  intros events round.
  assert (is_Some (this_state
            (session sampleClock sampleUUID (fresh (Some ∅)) events)))
    as Hdefined by (vm_compute; by eexists).
  destruct (poll_shows_grid sampleClock sampleUUID (Some ∅) events []
              (App.handleSearch false sampleApp).1 sampleCache_sound
              Hdefined) as [Hlast Hshown].
  destruct (poll_shows_grid sampleClock sampleUUID (Some ∅) events
              [Socket (QueryMessage (Text "The Flood"))]
              (App.handleSearch false sampleApp).1 sampleCache_sound
              Hdefined) as [Hlast' Hshown'].
  split.
  - specialize (Hshown (proj2 Hlast ltac:(vm_compute; reflexivity))).
    rewrite bool_decide_eq_true_2 in Hshown
      by (vm_compute; reflexivity).
    exact Hshown.
  - specialize (Hshown' (proj2 Hlast' ltac:(vm_compute; reflexivity))).
    rewrite bool_decide_eq_false_2 in Hshown'
      by (vm_compute; discriminate).
    exact Hshown'.
Defined.

Lemma page_after_connect_witness :
  let a := (onMessage sampleClock (QueryMessage (Text "The Last Supper"))
              sampleAgent).1 in
  ∃ envelopes,
    onConnect a = (a, inr envelopes)
    ∧ App.status (deliver (ofEnvelope <$> envelopes) App.initial)
      = Some Analyzing
    ∧ App.isLoading (deliver (ofEnvelope <$> envelopes) App.initial)
      = false.
Proof.
  intros a.
  destruct (page_after_connect a
              (submitted (Text "The Last Supper") (sampleClock 0))
              App.initial eq_refl)
    as (envelopes & Hsend & Hstatus & _ & _ & Hloading).
  exists envelopes. split; [exact Hsend|]. split; [exact Hstatus|].
  exact Hloading.
Defined.
